(** * aeneas: the task executor (aeneas/executetask.py)

    A shallow embedding of [ExecuteTask]: the projection of the synthetic
    anchors on the real time line ([_align_text]), the re-translation of the
    interval map ([_translate_text_map]), the boundary adjustment dispatch
    ([_adjust_boundaries]), the sync map builder ([_create_syncmap]), the
    head/tail detection step ([_cut_head_tail]) and the driver [execute]
    with its temporary-file registry ([cleanup_info], [_cleanup]).

    Times are Python floats in the source.  Every finite float is a rational
    number, so times are embedded in [Q]; the source only adds, subtracts,
    compares and takes absolute values and maxima of them, and these are
    taken exactly (no rounding).  Python's [==] on numbers is [Qeq]. *)

From Stdlib Require Import QArith Qabs Qminmax Lqa Lia.
From stdpp Require Import base option list gmap strings.

Local Open Scope Q_scope.

(** ** Data *)

(** An anchor of the synthesized wave: [[time, fragment_id, fragment_text]]. *)
Record anchor := Anchor {
  a_time : Q;
  a_id : string;
  a_text : string
}.

(** A row of [real_anchors]: the dummy last row carries [None, None]. *)
Record real_anchor := RealAnchor {
  ra_time : Q;
  ra_id : option string;
  ra_text : option string
}.

(** A row of an interval map: [[start, end, fragment_id, fragment_text]]. *)
Record interval := Interval {
  i_start : Q;
  i_end : Q;
  i_id : option string;
  i_text : option string
}.

(** ** numpy *)

(** [numpy.ndarray.argmin]: the index of the first occurrence of the minimum;
    it raises [ValueError] on an empty array. *)
Fixpoint argmin_from (best_i : nat) (best : Q) (i : nat) (l : list Q) : nat :=
  match l with
  | [] => best_i
  | x :: l' =>
      match Qcompare x best with
      | Lt => argmin_from i x (S i) l'
      | _ => argmin_from best_i best (S i) l'
      end
  end.

Definition argmin (l : list Q) : option nat :=
  match l with
  | [] => None
  | x :: l' => Some (argmin_from 0%nat x 1%nat l')
  end.

(** [numpy.abs(synt_times - time)] *)
Definition abs_diff (synt_times : list Q) (time : Q) : list Q :=
  map (fun s => Qabs (s - time)) synt_times.

(** ** [_align_text] *)

(** The body of the first loop, for one anchor. *)
Definition project_anchor (real_times synt_times : list Q) (a : anchor)
  : option real_anchor :=
  index ← argmin (abs_diff synt_times (a_time a));
  real_time ← real_times !! index;
  Some (RealAnchor real_time (Some (a_id a)) (Some (a_text a))).

(** The second loop: [for i in range(len(real_anchors) - 1)]. *)
Definition compute_map (real_anchors : list real_anchor) : option (list interval) :=
  mapM (fun i : nat =>
          cur ← real_anchors !! i;
          nxt ← real_anchors !! (i + 1)%nat;
          Some (Interval (ra_time cur) (ra_time nxt) (ra_id cur) (ra_text cur)))
       (seq 0 (length real_anchors - 1)).

(** [_align_text]: [None] is the pair [(False, None)] returned by the
    [except] branch, [Some m] is [(True, m)]. *)
Definition _align_text (wave_map : list (Q * Q)) (synt_anchors : list anchor)
  : option (list interval) :=
  let real_times := map fst wave_map in
  let synt_times := map snd wave_map in
  real_anchors ← mapM (project_anchor real_times synt_times) synt_anchors;
  last_time ← last real_times;
  compute_map (real_anchors ++ [RealAnchor last_time None None]).

(** ** Configuration, task and sync map *)

(** The algorithms named by [_adjust_boundaries]. *)
Inductive AdjustBoundaryAlgorithm :=
  | AUTO | AFTERCURRENT | BEFORENEXT | OFFSET | PERCENT | RATE | RATEAGGRESSIVE.

Inductive SyncMapHeadTailFormat := ADD | HIDDEN | STRETCH.

#[global] Instance AdjustBoundaryAlgorithm_eq_dec : EqDecision AdjustBoundaryAlgorithm.
Proof. solve_decision. Defined.

#[global] Instance SyncMapHeadTailFormat_eq_dec : EqDecision SyncMapHeadTailFormat.
Proof. solve_decision. Defined.

(** The fields of the task configuration read by the executor; an unset
    field is [None]. *)
Record TaskConfiguration := {
  is_audio_file_head_length : option Q;
  is_audio_file_process_length : option Q;
  is_audio_file_detect_head_min : option Q;
  is_audio_file_detect_head_max : option Q;
  is_audio_file_detect_tail_min : option Q;
  is_audio_file_detect_tail_max : option Q;
  adjust_boundary_algorithm : option AdjustBoundaryAlgorithm;
  adjust_boundary_aftercurrent_value : option Q;
  adjust_boundary_beforenext_value : option Q;
  adjust_boundary_offset_value : option Q;
  adjust_boundary_percent_value : option Q;
  adjust_boundary_rate_value : option Q;
  os_file_head_tail_format : option SyncMapHeadTailFormat
}.

(** The two assignments of [_cut_head_tail] to the configuration object. *)
Definition set_head_process (c : TaskConfiguration) (head_length process_length : Q)
  : TaskConfiguration :=
  {| is_audio_file_head_length := Some head_length;
     is_audio_file_process_length := Some process_length;
     is_audio_file_detect_head_min := is_audio_file_detect_head_min c;
     is_audio_file_detect_head_max := is_audio_file_detect_head_max c;
     is_audio_file_detect_tail_min := is_audio_file_detect_tail_min c;
     is_audio_file_detect_tail_max := is_audio_file_detect_tail_max c;
     adjust_boundary_algorithm := adjust_boundary_algorithm c;
     adjust_boundary_aftercurrent_value := adjust_boundary_aftercurrent_value c;
     adjust_boundary_beforenext_value := adjust_boundary_beforenext_value c;
     adjust_boundary_offset_value := adjust_boundary_offset_value c;
     adjust_boundary_percent_value := adjust_boundary_percent_value c;
     adjust_boundary_rate_value := adjust_boundary_rate_value c;
     os_file_head_tail_format := os_file_head_tail_format c |}.

Record TextFragment := {
  identifier : string;
  language : string;
  lines : list string
}.

(** [TextFile]: [len(text_file)] is [len(text_file.fragments)]. *)
Record TextFile := { fragments : list TextFragment }.

Record AudioFile := { audio_length : option Q }.

Record SyncMapFragment := {
  text_fragment : TextFragment;
  sm_begin : Q;
  sm_end : Q
}.

(** [SyncMap]: the list of the fragments appended to it. *)
Abbreviation SyncMap := (list SyncMapFragment).

Record Task := {
  audio_file : option AudioFile;
  audio_file_path_absolute : string;
  text_file : option TextFile;
  configuration : TaskConfiguration;
  sync_map : option SyncMap
}.

Definition set_configuration (t : Task) (c : TaskConfiguration) : Task :=
  {| audio_file := audio_file t;
     audio_file_path_absolute := audio_file_path_absolute t;
     text_file := text_file t;
     configuration := c;
     sync_map := sync_map t |}.

Definition set_sync_map (t : Task) (m : SyncMap) : Task :=
  {| audio_file := audio_file t;
     audio_file_path_absolute := audio_file_path_absolute t;
     text_file := text_file t;
     configuration := configuration t;
     sync_map := Some m |}.

(** The [ExecuteTask] object: the task and the registry of temporary files,
    a list of [[handler, path]] rows. *)
Record ExecuteTask := {
  task : Task;
  cleanup_info : list (option Z * option string)
}.

Definition set_task (self : ExecuteTask) (t : Task) : ExecuteTask :=
  {| task := t; cleanup_info := cleanup_info self |}.

Definition set_cleanup_info (self : ExecuteTask) (l : list (option Z * option string))
  : ExecuteTask :=
  {| task := task self; cleanup_info := l |}.

(** ** The world outside the executor *)

(** The operating system as the executor sees it: the open file handlers,
    the existing paths, and how many times the voice activity detector ran. *)
Record World := {
  open_handlers : gset Z;
  files : gset string;
  vad_runs : nat
}.

(** An MFCC matrix. *)
Definition mfcc := list (list Q).

(** The outcome of [VAD.compute_vad]. *)
Record VADResult := {
  speech : list (Q * Q);
  nonspeech : list (Q * Q)
}.

(** The collaborators of the executor that are not part of it, and the
    constants of [aeneas.globalconstants] it reads.  A collaborator called
    in a [try] block returns [None] (or [false]) when it raises.  The
    boundary adjuster is called outside any [try] block and is taken to
    return a map. *)
Record Externals := {
  SD_MIN_HEAD_LENGTH : Q;
  SD_MAX_HEAD_LENGTH : Q;
  SD_MIN_TAIL_LENGTH : Q;
  SD_MAX_TAIL_LENGTH : Q;
  (** [tempfile.mkstemp] as called by [_convert] *)
  ext_mkstemp_real : option (Z * string);
  (** [FFMPEGWrapper.convert input_file_path output_file_path] *)
  ext_ffmpeg_convert : string -> string -> bool;
  (** [AudioFile(path).extract_mfcc()]: the MFCCs and the audio length *)
  ext_extract_mfcc : option string -> option (mfcc * Q);
  (** [AudioFile(path).load_data()]: the audio length *)
  ext_load_data : option string -> option Q;
  (** [SD.detect_head min max] and [SD.detect_tail min max] *)
  ext_detect_head : Q -> Q -> option Q;
  ext_detect_tail : Q -> Q -> option Q;
  (** [audio_file.trim head process], [write] and [clear_data] *)
  ext_trim_write : option Q -> option Q -> bool;
  (** [tempfile.mkstemp] as called by [_synthesize] *)
  ext_mkstemp_synt : option (Z * string);
  (** [Synthesizer.synthesize text_file path]: the anchors *)
  ext_synthesize : option TextFile -> string -> option (list anchor);
  (** [DTWAligner(real_path, synt_path)]: the computed map *)
  ext_computed_map : option string -> option string -> option (list (Q * Q));
  (** [VAD.compute_vad] on the MFCCs and the length of the real wave *)
  ext_compute_vad : mfcc -> Q -> option VADResult;
  (** [AdjustBoundaryAlgorithm(algorithm, text_map, speech, nonspeech, value).adjust()] *)
  ext_adjust : AdjustBoundaryAlgorithm -> list interval -> VADResult -> option Q
               -> list interval
}.

(** Modelled from the spec: [gf.safe_float] of aeneas/globalfunctions.py,
    which is not among the sources: the number held by the value, and the
    default when there is none. *)
Definition safe_float (value : option Q) (default : Q) : Q :=
  match value with
  | Some v => v
  | None => default
  end.

(** A call that returns, or an exception that leaves the method. *)
Inductive outcome (A : Type) :=
  | Returns (a : A)
  | Raises.
Arguments Returns {A} a.
Arguments Raises {A}.

(** ** [_translate_text_map] *)

(** The body of the loop: the state is the list [translated] and the
    variable [end], which the loop leaves holding the last shifted end. *)
Definition translate_step (head : Q) (st : list interval * Q) (element : interval)
  : list interval * Q :=
  let start := i_start element + head in
  let end_ := i_end element + head in
  (st.1 ++ [Interval start end_ (i_id element) (i_text element)], end_).

Definition _translate_text_map (self : ExecuteTask) (text_map : list interval)
    (real_full_wave_length : Q) : option (list interval) :=
  if decide (length text_map = 0%nat) then None
  else
    let head := safe_float (is_audio_file_head_length (configuration (task self))) 0 in
    let st := foldl (translate_step head) ([Interval 0 head None None], 0) text_map in
    Some (st.1 ++ [Interval st.2 real_full_wave_length None None]).

(** ** [_adjust_boundaries] *)

(** The chain of [elif]s choosing the value of the algorithm. *)
Definition algorithm_value (c : TaskConfiguration) (algo : AdjustBoundaryAlgorithm)
  : option Q :=
  match algo with
  | AUTO => None
  | AFTERCURRENT => adjust_boundary_aftercurrent_value c
  | BEFORENEXT => adjust_boundary_beforenext_value c
  | OFFSET => adjust_boundary_offset_value c
  | PERCENT => adjust_boundary_percent_value c
  | RATE => adjust_boundary_rate_value c
  | RATEAGGRESSIVE => adjust_boundary_rate_value c
  end.

Definition run_vad (w : World) : World :=
  {| open_handlers := open_handlers w; files := files w; vad_runs := S (vad_runs w) |}.

Definition _adjust_boundaries (ext : Externals) (self : ExecuteTask)
    (text_map : list interval) (real_wave_full_mfcc : mfcc) (real_wave_length : Q)
    (w : World) : option (list interval) * World :=
  match adjust_boundary_algorithm (configuration (task self)) with
  | None => (Some text_map, w)
  | Some AUTO => (Some text_map, w)
  | Some algo =>
      let value := algorithm_value (configuration (task self)) algo in
      match ext_compute_vad ext real_wave_full_mfcc real_wave_length with
      | None => (None, run_vad w)
      | Some vad => (Some (ext_adjust ext algo text_map vad value), run_vad w)
      end
  end.

(** ** [_create_syncmap] *)

Definition with_start (r : interval) (s : Q) : interval :=
  Interval s (i_end r) (i_id r) (i_text r).

Definition with_end (r : interval) (e : Q) : interval :=
  Interval (i_start r) e (i_id r) (i_text r).

(** [adjusted_map[1][0] = head[0]; adjusted_map[-2][1] = tail[1]], where
    [head] and [tail] are the rows [adjusted_map[0]] and [adjusted_map[-1]]
    themselves: the second assignment reads the map as the first left it. *)
Definition stretch (adjusted_map : list interval) : option (list interval) :=
  head ← adjusted_map !! 0%nat;
  row1 ← adjusted_map !! 1%nat;
  let m1 := <[1%nat := with_start row1 (i_start head)]> adjusted_map in
  tail ← last m1;
  row2 ← m1 !! (length m1 - 2)%nat;
  Some (<[(length m1 - 2)%nat := with_end row2 (i_end tail)]> m1).

(** The loop over the text fragments, [i] running from 1. *)
Definition fragment_rows (adjusted_map : list interval) (frags : list TextFragment)
  : option (list SyncMapFragment) :=
  mapM (fun p : nat * TextFragment =>
          row ← adjusted_map !! (p.1 + 1)%nat;
          Some {| text_fragment := p.2; sm_begin := i_start row; sm_end := i_end row |})
       (imap (fun i f => (i, f)) frags).

Definition Language_EN : string := "en".

(** [TextFragment(identifier, language, [u""])], the fragment of the HEAD and
    TAIL entries. *)
Definition head_tail_fragment (identifier_ language_ : string) : TextFragment :=
  {| identifier := identifier_; language := language_; lines := [EmptyString] |}.

(** The [try] block: [None] when an exception is raised in it. *)
Definition build_sync_map (c : TaskConfiguration) (frags : list TextFragment)
    (adjusted_map : list interval) : option SyncMap :=
  head ← adjusted_map !! 0%nat;
  tail ← last adjusted_map;
  let language := match frags with f :: _ => language f | [] => Language_EN end in
  let head_tail_format := os_file_head_tail_format c in
  let sync_map0 : SyncMap :=
    if decide (head_tail_format = Some ADD)
    then [ {| text_fragment := head_tail_fragment "HEAD" language;
              sm_begin := i_start head; sm_end := i_end head |} ]
    else [] in
  adjusted_map1 ← (if decide (head_tail_format = Some STRETCH)
                   then stretch adjusted_map else Some adjusted_map);
  rows ← fragment_rows adjusted_map1 frags;
  let sync_map1 := sync_map0 ++ rows in
  Some (if decide (head_tail_format = Some ADD)
        then sync_map1 ++
             [ {| text_fragment := head_tail_fragment "TAIL" language;
                  sm_begin := i_start tail; sm_end := i_end tail |} ]
        else sync_map1).

(** [_create_syncmap]: the length test is outside the [try], so a task
    without text file raises. *)
Definition _create_syncmap (self : ExecuteTask) (adjusted_map : list interval)
  : outcome bool * ExecuteTask :=
  match text_file (task self) with
  | None => (Raises, self)
  | Some tf =>
      if decide (length adjusted_map ≠ (length (fragments tf) + 2)%nat)
      then (Returns false, self)
      else
        match build_sync_map (configuration (task self)) (fragments tf) adjusted_map with
        | Some sync_map => (Returns true, set_task self (set_sync_map (task self) sync_map))
        | None => (Returns false, self)
        end
  end.

(** ** Temporary files *)

(** [tempfile.mkstemp] returning [(handler, path)]: the file exists and is
    open. *)
Definition created (h : Z) (p : string) (w : World) : World :=
  {| open_handlers := {[h]} ∪ open_handlers w;
     files := {[p]} ∪ files w;
     vad_runs := vad_runs w |}.

(** [os.close]: an error (the handler is not open) is caught by [_cleanup]. *)
Definition os_close (h : Z) (w : World) : World :=
  {| open_handlers := open_handlers w ∖ {[h]}; files := files w; vad_runs := vad_runs w |}.

(** [os.remove]: an error (no such file) is caught by [_cleanup]. *)
Definition os_remove (p : string) (w : World) : World :=
  {| open_handlers := open_handlers w; files := files w ∖ {[p]}; vad_runs := vad_runs w |}.

(** The body of the loop of [_cleanup]. *)
Definition cleanup_step (w : World) (info : option Z * option string) : World :=
  let w1 := match info.1 with Some handler => os_close handler w | None => w end in
  match info.2 with Some path => os_remove path w1 | None => w1 end.

Definition _cleanup (self : ExecuteTask) (w : World) : ExecuteTask * World :=
  (set_cleanup_info self [], foldl cleanup_step w (cleanup_info self)).

(** ** The stages that call the collaborators *)

Definition _convert (ext : Externals) (self : ExecuteTask) (w : World)
  : (bool * option Z * option string) * World :=
  match ext_mkstemp_real ext with
  | None => ((false, None, None), w)
  | Some (handler, path) =>
      let w1 := created handler path w in
      if ext_ffmpeg_convert ext (audio_file_path_absolute (task self)) path
      then ((true, Some handler, Some path), w1)
      else ((false, Some handler, Some path), w1)
  end.

(** [_extract_mfcc]: [None] is [(False, None, None)], [Some (m, l)] is
    [(True, m, l)]. *)
Definition _extract_mfcc (ext : Externals) (audio_file_path : option string)
  : option (mfcc * Q) :=
  ext_extract_mfcc ext audio_file_path.

Definition is_not_None {A} (o : option A) : bool :=
  match o with Some _ => true | None => false end.

(** The end of the [if explicit or detect] branch: trimming and writing. *)
Definition trim_and_write (ext : Externals) (self : ExecuteTask)
    (head_length process_length : option Q) : bool * ExecuteTask :=
  if ext_trim_write ext head_length process_length then (true, self) else (false, self).

(** The head detection of [_cut_head_tail]: [0.0] unless a head parameter
    is set; [None] when [SD.detect_head] raises. *)
Definition detected_head (ext : Externals) (c : TaskConfiguration) : option Q :=
  let detect_head_min := is_audio_file_detect_head_min c in
  let detect_head_max := is_audio_file_detect_head_max c in
  if is_not_None detect_head_min || is_not_None detect_head_max
  then ext_detect_head ext
         (safe_float detect_head_min (SD_MIN_HEAD_LENGTH ext))
         (safe_float detect_head_max (SD_MAX_HEAD_LENGTH ext))
  else Some 0.

(** The tail detection of [_cut_head_tail]. *)
Definition detected_tail (ext : Externals) (c : TaskConfiguration) : option Q :=
  let detect_tail_min := is_audio_file_detect_tail_min c in
  let detect_tail_max := is_audio_file_detect_tail_max c in
  if is_not_None detect_tail_min || is_not_None detect_tail_max
  then ext_detect_tail ext
         (safe_float detect_tail_min (SD_MIN_TAIL_LENGTH ext))
         (safe_float detect_tail_max (SD_MAX_TAIL_LENGTH ext))
  else Some 0.

(** [explicit] and [detect] of [_cut_head_tail]. *)
Definition explicit (c : TaskConfiguration) : bool :=
  is_not_None (is_audio_file_head_length c)
  || is_not_None (is_audio_file_process_length c).

Definition detect (c : TaskConfiguration) : bool :=
  is_not_None (is_audio_file_detect_head_min c)
  || is_not_None (is_audio_file_detect_head_max c)
  || is_not_None (is_audio_file_detect_tail_min c)
  || is_not_None (is_audio_file_detect_tail_max c).

(** [_cut_head_tail]: an exception raised by a collaborator leaves the
    [try] block where it is raised, so the configuration set before the
    trimming stays set when the trimming fails.  Python's [max(0, x)] is
    [x] when [0 < x] and [0] otherwise, as [Qmax 0 x]. *)
Definition _cut_head_tail (ext : Externals) (self : ExecuteTask)
    (audio_file_path : option string) : bool * ExecuteTask :=
  let configuration_ := configuration (task self) in
  let head_length := is_audio_file_head_length configuration_ in
  let process_length := is_audio_file_process_length configuration_ in
  if explicit configuration_ || detect configuration_ then
    match ext_load_data ext audio_file_path with
    | None => (false, self)
    | Some audio_length_ =>
        if explicit configuration_
        then trim_and_write ext self head_length process_length
        else
          match detected_head ext configuration_ with
          | None => (false, self)
          | Some head =>
              match detected_tail ext configuration_ with
              | None => (false, self)
              | Some tail =>
                  let head_length := Qmax 0 head in
                  let process_length := Qmax 0 (audio_length_ - tail - head) in
                  let self1 :=
                    set_task self
                      (set_configuration (task self)
                         (set_head_process (configuration (task self))
                            head_length process_length)) in
                  trim_and_write ext self1 (Some head_length) (Some process_length)
              end
          end
    end
  else (true, self).

Definition _synthesize (ext : Externals) (self : ExecuteTask) (w : World)
  : (bool * option Z * option string * option (list anchor)) * World :=
  match ext_mkstemp_synt ext with
  | None => ((false, None, None, None), w)
  | Some (handler, path) =>
      let w1 := created handler path w in
      match ext_synthesize ext (text_file (task self)) path with
      | Some anchors => ((true, Some handler, Some path, Some anchors), w1)
      | None => ((false, Some handler, Some path, None), w1)
      end
  end.

(** [_align_waves]: [None] is [(False, None)], [Some m] is [(True, m)]. *)
Definition _align_waves (ext : Externals) (real_path synt_path : option string)
  : option (list (Q * Q)) :=
  ext_computed_map ext real_path synt_path.

(** ** [execute] *)

(** A failed stage: [self._cleanup(); return False]. *)
Definition stage_failure (self : ExecuteTask) (w : World)
  : outcome bool * ExecuteTask * World :=
  let '(self1, w1) := _cleanup self w in (Returns false, self1, w1).

(** [self.cleanup_info.append([handler, path])] *)
Definition register (self : ExecuteTask) (handler : option Z) (path : option string)
  : ExecuteTask :=
  set_cleanup_info self (cleanup_info self ++ [(handler, path)]).

(** The test of [execute] on the audio length: [None] or not positive. *)
Definition invalid_audio_length (a : AudioFile) : bool :=
  match audio_length a with
  | None => true
  | Some l => Qle_bool l 0
  end.

(** STEP 4 to STEP 9. *)
Definition execute_from_step4 (ext : Externals) (self : ExecuteTask) (w : World)
    (real_trimmed_path synt_path : option string)
    (synt_anchors : option (list anchor))
    (real_full_wave_full_mfcc : mfcc) (real_full_wave_length : Q)
  : outcome bool * ExecuteTask * World :=
  match _align_waves ext real_trimmed_path synt_path with
  | None => stage_failure self w
  | Some wave_map =>
  match synt_anchors ≫= _align_text wave_map with
  | None => stage_failure self w
  | Some text_map =>
  match _translate_text_map self text_map real_full_wave_length with
  | None => stage_failure self w
  | Some translated_text_map =>
  match _adjust_boundaries ext self translated_text_map
          real_full_wave_full_mfcc real_full_wave_length w with
  | (None, w7) => stage_failure self w7
  | (Some adjusted_map, w7) =>
  match _create_syncmap self adjusted_map with
  | (Raises, self8) => (Raises, self8, w7)
  | (Returns false, self8) => stage_failure self8 w7
  | (Returns true, self8) =>
      let '(self9, w9) := _cleanup self8 w7 in (Returns true, self9, w9)
  end end end end end.

(** STEP 0 to STEP 3, then the rest. *)
Definition execute_from_step0 (ext : Externals) (self : ExecuteTask) (w : World)
  : outcome bool * ExecuteTask * World :=
  let '((result0, real_full_handler, real_full_path), w0) := _convert ext self w in
  let self0 := register self real_full_handler real_full_path in
  if negb result0 then stage_failure self0 w0
  else
  match _extract_mfcc ext real_full_path with
  | None => stage_failure self0 w0
  | Some (real_full_wave_full_mfcc, real_full_wave_length) =>
  let '(result2, self2) := _cut_head_tail ext self0 real_full_path in
  let real_trimmed_path := real_full_path in
  if negb result2 then stage_failure self2 w0
  else
  let '((result3, synt_handler, synt_path, synt_anchors), w3) := _synthesize ext self2 w0 in
  let self3 := register self2 synt_handler synt_path in
  if negb result3 then stage_failure self3 w3
  else
    execute_from_step4 ext self3 w3 real_trimmed_path synt_path synt_anchors
      real_full_wave_full_mfcc real_full_wave_length
  end.

(** Whether [execute] passes its tests on the task and reaches STEP 0. *)
Definition reaches_step0 (t : Task) : bool :=
  match audio_file t, text_file t with
  | Some a, Some tf =>
      negb (invalid_audio_length a) && negb (bool_decide (length (fragments tf) = 0%nat))
  | _, _ => false
  end.

Definition execute (ext : Externals) (self : ExecuteTask) (w : World)
  : outcome bool * ExecuteTask * World :=
  match audio_file (task self) with
  | None => (Returns false, self, w)
  | Some a =>
      if invalid_audio_length a then (Returns false, self, w)
      else
        match text_file (task self) with
        | None => (Returns false, self, w)
        | Some tf =>
            if decide (length (fragments tf) = 0%nat) then (Returns false, self, w)
            else execute_from_step0 ext (set_cleanup_info self []) w
        end
  end.

(** * Specification vocabulary *)

(** ** The anchor projector *)

(** [i] is the smallest index at which [l] takes its minimum. *)
Definition first_argmin (l : list Q) (i : nat) : Prop :=
  exists v, l !! i = Some v
    /\ (forall j x, l !! j = Some x -> v <= x)
    /\ (forall j x, (j < i)%nat -> l !! j = Some x -> v < x).

(** A list of numbers is non-decreasing. *)
Definition nondecreasing (l : list Q) : Prop :=
  forall i j x y, (i <= j)%nat -> l !! i = Some x -> l !! j = Some y -> x <= y.

(** The sum of the durations of the intervals of a map. *)
Definition sum_durations (m : list interval) : Q :=
  foldr (fun iv acc => (i_end iv - i_start iv) + acc) 0 m.

(** The intervals between consecutive rows of [real_anchors]. *)
Definition intervals_of (real_anchors : list real_anchor) : list interval :=
  zip_with (fun cur nxt => Interval (ra_time cur) (ra_time nxt) (ra_id cur) (ra_text cur))
           real_anchors (tail real_anchors).

(** ** Head/tail re-translation *)

(** An interval moved by [head] seconds. *)
Definition shift (head : Q) (iv : interval) : interval :=
  Interval (i_start iv + head) (i_end iv + head) (i_id iv) (i_text iv).

(** ** Temporary files *)

(** The handlers and the paths of a registry. *)
Definition recorded_handlers (l : list (option Z * option string)) : gset Z :=
  list_to_set (omap fst l).

Definition recorded_paths (l : list (option Z * option string)) : gset string :=
  list_to_set (omap snd l).

(** ** Runs of [execute] *)

(** What a successful run from STEP 4 on has computed. *)
Definition run_succeeded (ext : Externals) (self : ExecuteTask) (w : World)
    (real_trimmed_path synt_path : option string) (synt_anchors : option (list anchor))
    (real_full_wave_full_mfcc : mfcc) (real_full_wave_length : Q)
    (self' : ExecuteTask) (w7 : World) : Prop :=
  exists wave_map anchors text_map translated adjusted tf sync_map_,
    synt_anchors = Some anchors
    /\ _align_waves ext real_trimmed_path synt_path = Some wave_map
    /\ _align_text wave_map anchors = Some text_map
    /\ _translate_text_map self text_map real_full_wave_length = Some translated
    /\ _adjust_boundaries ext self translated real_full_wave_full_mfcc
         real_full_wave_length w = (Some adjusted, w7)
    /\ text_file (task self) = Some tf
    /\ length adjusted = (length (fragments tf) + 2)%nat
    /\ build_sync_map (configuration (task self)) (fragments tf) adjusted
       = Some sync_map_
    /\ task self' = set_sync_map (task self) sync_map_.

(** Whether [execute], started on [self] with an empty registry, comes to
    STEP 3, where the second temporary file is created. *)
Definition reaches_step3 (ext : Externals) (self : ExecuteTask) (w : World) : bool :=
  let c := _convert ext self w in
  c.1.1.1
  && is_not_None (_extract_mfcc ext c.1.2)
  && (_cut_head_tail ext (register self c.1.1.2 c.1.2) c.1.2).1.

(** What a successful run from STEP 0 on has computed: every stage
    succeeded, and the task of [self'] is the task as [_cut_head_tail] left
    it, with the sync map built by [_create_syncmap]. *)
Definition step0_succeeded (ext : Externals) (self : ExecuteTask) (w : World)
    (self' : ExecuteTask) : Prop :=
  exists real_full_handler real_full_path w0 real_full_wave_full_mfcc
         real_full_wave_length self2 synt_handler synt_path synt_anchors w3 w7,
    _convert ext self w = ((true, real_full_handler, real_full_path), w0)
    /\ _extract_mfcc ext real_full_path
       = Some (real_full_wave_full_mfcc, real_full_wave_length)
    /\ _cut_head_tail ext (register self real_full_handler real_full_path) real_full_path
       = (true, self2)
    /\ _synthesize ext self2 w0 = ((true, synt_handler, synt_path, synt_anchors), w3)
    /\ run_succeeded ext (register self2 synt_handler synt_path) w3
         real_full_path synt_path synt_anchors
         real_full_wave_full_mfcc real_full_wave_length self' w7.

(** What holds when a run from STEP 0 on is over. *)
Definition step0_post (ext : Externals) (self : ExecuteTask) (w : World)
    (out : outcome bool * ExecuteTask * World) : Prop :=
  exists (r : bool) (self' : ExecuteTask) (w' : World),
    out = (Returns r, self', w')
    /\ cleanup_info self' = []
    /\ open_handlers w' ⊆ open_handlers w
    /\ files w' ⊆ files w
    /\ (forall h p, ext_mkstemp_real ext = Some (h, p) ->
          (h ∉ open_handlers w') /\ (p ∉ files w'))
    /\ (forall h p, reaches_step3 ext self w = true ->
          ext_mkstemp_synt ext = Some (h, p) ->
          (h ∉ open_handlers w') /\ (p ∉ files w'))
    /\ (if r then step0_succeeded ext self w self'
        else sync_map (task self') = sync_map (task self)).

(** ** Head and tail detection *)

(** Two configurations agree on every field but the head length and the
    process length. *)
Definition same_but_head_process (c c' : TaskConfiguration) : Prop :=
  is_audio_file_detect_head_min c' = is_audio_file_detect_head_min c
  /\ is_audio_file_detect_head_max c' = is_audio_file_detect_head_max c
  /\ is_audio_file_detect_tail_min c' = is_audio_file_detect_tail_min c
  /\ is_audio_file_detect_tail_max c' = is_audio_file_detect_tail_max c
  /\ adjust_boundary_algorithm c' = adjust_boundary_algorithm c
  /\ adjust_boundary_aftercurrent_value c' = adjust_boundary_aftercurrent_value c
  /\ adjust_boundary_beforenext_value c' = adjust_boundary_beforenext_value c
  /\ adjust_boundary_offset_value c' = adjust_boundary_offset_value c
  /\ adjust_boundary_percent_value c' = adjust_boundary_percent_value c
  /\ adjust_boundary_rate_value c' = adjust_boundary_rate_value c
  /\ os_file_head_tail_format c' = os_file_head_tail_format c.

(** ** Contiguity and coverage *)

(** Each row of an interval map starts where the previous one ends. *)
Definition contiguous_map (m : list interval) : Prop :=
  forall i a b, m !! i = Some a -> m !! S i = Some b -> i_start b == i_end a.

(** Each entry of a sync map starts where the previous one ends. *)
Definition contiguous (sm : SyncMap) : Prop :=
  forall i a b, sm !! i = Some a -> sm !! S i = Some b -> sm_begin b == sm_end a.

(** The same, but for the second row, which starts [gap] after the end of the
    first. *)
Definition contiguous_map_after (gap : Q) (m : list interval) : Prop :=
  forall i a b, m !! i = Some a -> m !! S i = Some b ->
    i_start b == i_end a + (if decide (i = 0%nat) then gap else 0).

Definition contiguous_after (gap : Q) (sm : SyncMap) : Prop :=
  forall i a b, sm !! i = Some a -> sm !! S i = Some b ->
    sm_begin b == sm_end a + (if decide (i = 0%nat) then gap else 0).

(** The first entry of a sync map starts at [lo] and the last ends at [hi]. *)
Definition spans (sm : SyncMap) (lo hi : Q) : Prop :=
  exists first last_,
    sm !! 0%nat = Some first /\ last sm = Some last_
    /\ sm_begin first == lo /\ sm_end last_ == hi.

(** Modelled from the spec: [AdjustBoundaryAlgorithm.adjust], of
    aeneas/adjustboundaryalgorithm.py, is not among the sources.  Section 4.7
    says of its output: "adjusted interval list preserving order,
    contiguity, and total coverage", that is, the adjusted map of a
    contiguous map is contiguous, and its first start and last end are those
    of the map. *)
Definition preserves_coverage (f : list interval -> list interval) : Prop :=
  forall m, contiguous_map m ->
    contiguous_map (f m)
    /\ (forall a a', m !! 0%nat = Some a -> f m !! 0%nat = Some a' ->
          i_start a' == i_start a)
    /\ (forall b b', last m = Some b -> last (f m) = Some b' ->
          i_end b' == i_end b).

(** The adjuster called by [_adjust_boundaries] under a configuration, if
    any, keeps that promise. *)
Definition adjuster_preserves_coverage (ext : Externals) (c : TaskConfiguration)
  : Prop :=
  match adjust_boundary_algorithm c with
  | None | Some AUTO => True
  | Some algo =>
      forall vad, preserves_coverage
                    (fun m => ext_adjust ext algo m vad (algorithm_value c algo))
  end.

(** The rows of a sync map are those of an interval map, from row [d] on. *)
Definition rows_from (d : nat) (m : list interval) (sm : SyncMap) : Prop :=
  forall k e, sm !! k = Some e ->
    exists row, m !! (d + k)%nat = Some row
      /\ sm_begin e = i_start row /\ sm_end e = i_end row.

(** ** A run on a one-fragment task *)

(** A configuration with nothing set but the head/tail format. *)
Definition example_configuration (format : option SyncMapHeadTailFormat)
  : TaskConfiguration :=
  {| is_audio_file_head_length := None;
     is_audio_file_process_length := None;
     is_audio_file_detect_head_min := None;
     is_audio_file_detect_head_max := None;
     is_audio_file_detect_tail_min := None;
     is_audio_file_detect_tail_max := None;
     adjust_boundary_algorithm := None;
     adjust_boundary_aftercurrent_value := None;
     adjust_boundary_beforenext_value := None;
     adjust_boundary_offset_value := None;
     adjust_boundary_percent_value := None;
     adjust_boundary_rate_value := None;
     os_file_head_tail_format := format |}.

Definition example_task (c : TaskConfiguration) : Task :=
  {| audio_file := Some {| audio_length := Some 3 |};
     audio_file_path_absolute := "audio.mp3";
     text_file := Some {| fragments := [ {| identifier := "f1"; language := "en";
                                             lines := ["a"%string] |} ] |};
     configuration := c;
     sync_map := None |}.

Definition example_self (c : TaskConfiguration) : ExecuteTask :=
  {| task := example_task c; cleanup_info := [] |}.

Definition example_world : World :=
  {| open_handlers := ∅; files := ∅; vad_runs := 0 |}.

(** Collaborators that all succeed: the audio lasts 3 seconds, the only
    anchor is at 0, and the aligner returns [wave_map]. *)
Definition example_externals (wave_map : list (Q * Q)) : Externals :=
  {| SD_MIN_HEAD_LENGTH := 0;
     SD_MAX_HEAD_LENGTH := 10;
     SD_MIN_TAIL_LENGTH := 0;
     SD_MAX_TAIL_LENGTH := 10;
     ext_mkstemp_real := Some (3%Z, "/tmp/real.wav"%string);
     ext_ffmpeg_convert := fun _ _ => true;
     ext_extract_mfcc := fun _ => Some ([], 3);
     ext_load_data := fun _ => Some 3;
     ext_detect_head := fun _ _ => Some (1#2);
     ext_detect_tail := fun _ _ => Some (1#4);
     ext_trim_write := fun _ _ => true;
     ext_mkstemp_synt := Some (4%Z, "/tmp/synt.wav"%string);
     ext_synthesize := fun _ _ => Some [Anchor 0 "f1" "a"];
     ext_computed_map := fun _ _ => Some wave_map;
     ext_compute_vad := fun _ _ => Some {| speech := []; nonspeech := [] |};
     ext_adjust := fun _ m _ _ => m |}.

(** The adjusted map of the sixth scenario of the specification: a head of
    0.3 s and a tail of 0.2 s on a file of 10 s. *)
Definition example_adjusted_map : list interval :=
  [Interval 0 (3#10) None None;
   Interval (3#10) (98#10) (Some "f1") (Some "a");
   Interval (98#10) 10 None None].

(** A configuration asking for the detection of the head. *)
Definition example_detect_configuration : TaskConfiguration :=
  {| is_audio_file_head_length := None;
     is_audio_file_process_length := None;
     is_audio_file_detect_head_min := Some (1#2);
     is_audio_file_detect_head_max := None;
     is_audio_file_detect_tail_min := None;
     is_audio_file_detect_tail_max := None;
     adjust_boundary_algorithm := None;
     adjust_boundary_aftercurrent_value := None;
     adjust_boundary_beforenext_value := None;
     adjust_boundary_offset_value := None;
     adjust_boundary_percent_value := None;
     adjust_boundary_rate_value := None;
     os_file_head_tail_format := Some ADD |}.

(** ** Further vocabulary *)

(** No boundary adjuster is called: no algorithm is configured, or AUTO. *)
Definition no_adjuster (c : TaskConfiguration) : Prop :=
  adjust_boundary_algorithm c = None \/ adjust_boundary_algorithm c = Some AUTO.

(** The tests of [execute] on the task that make it return [False] at
    once. *)
Definition rejected (t : Task) : Prop :=
  audio_file t = None
  \/ (exists a, audio_file t = Some a
        /\ (audio_length a = None \/ exists l, audio_length a = Some l /\ l <= 0))
  \/ text_file t = None
  \/ (exists tf, text_file t = Some tf /\ fragments tf = []).

(** The row that a stage registers for the outcome of its [mkstemp]. *)
Definition mkstemp_row (o : option (Z * string)) : option Z * option string :=
  (fst <$> o, snd <$> o).

(** The text fragments of the entries of a sync map. *)
Definition fragments_of (sm : SyncMap) : list TextFragment :=
  map text_fragment sm.

(** A configuration asking for the RATE algorithm. *)
Definition example_rate_configuration : TaskConfiguration :=
  {| is_audio_file_head_length := None;
     is_audio_file_process_length := None;
     is_audio_file_detect_head_min := None;
     is_audio_file_detect_head_max := None;
     is_audio_file_detect_tail_min := None;
     is_audio_file_detect_tail_max := None;
     adjust_boundary_algorithm := Some RATE;
     adjust_boundary_aftercurrent_value := None;
     adjust_boundary_beforenext_value := None;
     adjust_boundary_offset_value := None;
     adjust_boundary_percent_value := None;
     adjust_boundary_rate_value := Some 21;
     os_file_head_tail_format := Some HIDDEN |}.

(** A task without audio file. *)
Definition example_task_without_audio : Task :=
  {| audio_file := None;
     audio_file_path_absolute := "audio.mp3";
     text_file := Some {| fragments := [] |};
     configuration := example_configuration None;
     sync_map := None |}.

(** Every stage of [execute] succeeds, the aligner returns a wave map with at
    least one row, and the synthesizer returns one anchor per text
    fragment. *)
Definition all_stages_succeed (ext : Externals) (self : ExecuteTask) : Prop :=
  exists a tf h p mf L hs ps anchors wave_map,
    audio_file (task self) = Some a
    /\ invalid_audio_length a = false
    /\ text_file (task self) = Some tf
    /\ fragments tf <> []
    /\ ext_mkstemp_real ext = Some (h, p)
    /\ ext_ffmpeg_convert ext (audio_file_path_absolute (task self)) p = true
    /\ ext_extract_mfcc ext (Some p) = Some (mf, L)
    /\ (_cut_head_tail ext (register (set_cleanup_info self []) (Some h) (Some p))
          (Some p)).1 = true
    /\ ext_mkstemp_synt ext = Some (hs, ps)
    /\ ext_synthesize ext (Some tf) ps = Some anchors
    /\ ext_computed_map ext (Some p) (Some ps) = Some wave_map
    /\ wave_map <> []
    /\ length anchors = length (fragments tf).

(** What a run from STEP 0 on does to the world and to the task. *)
Definition step0_effects (ext : Externals) (self : ExecuteTask) (w : World)
    (out : outcome bool * ExecuteTask * World) : Prop :=
  exists (info : list (option Z * option string)) (wpre : World),
    out.2 = foldl cleanup_step wpre info
    /\ (forall e, e ∈ info ->
          e = mkstemp_row (ext_mkstemp_real ext)
          \/ e = mkstemp_row (ext_mkstemp_synt ext))
    /\ open_handlers w ⊆ open_handlers wpre
    /\ files w ⊆ files wpre
    /\ (vad_runs w <= vad_runs wpre <= S (vad_runs w))%nat
    /\ (no_adjuster (configuration (task self)) -> vad_runs wpre = vad_runs w)
    /\ (forall algo, out.1.1 = Returns true ->
          adjust_boundary_algorithm (configuration (task self)) = Some algo ->
          algo <> AUTO -> vad_runs wpre = S (vad_runs w))
    /\ audio_file (task out.1.2) = audio_file (task self)
    /\ audio_file_path_absolute (task out.1.2) = audio_file_path_absolute (task self)
    /\ text_file (task out.1.2) = text_file (task self)
    /\ same_but_head_process (configuration (task self)) (configuration (task out.1.2)).

(** * Properties of [argmin] *)

Section Argmin.

Lemma argmin_from_first (l pre : list Q) (best_i : nat) (best : Q) :
  pre !! best_i = Some best ->
  (forall j x, pre !! j = Some x -> best <= x) ->
  (forall j x, (j < best_i)%nat -> pre !! j = Some x -> best < x) ->
  first_argmin (pre ++ l) (argmin_from best_i best (length pre) l).
Proof.
  revert pre best_i best.
  induction l as [|x l IH]; intros pre best_i best Hb Hmin Hfirst; simpl.
  - rewrite app_nil_r. exists best. auto.
  - replace (pre ++ x :: l) with ((pre ++ [x]) ++ l) by (rewrite <- app_assoc; reflexivity).
    replace (S (length pre)) with (length (pre ++ [x]))
      by (rewrite length_app; simpl; lia).
    destruct (Qcompare x best) eqn:Hc.
    + apply Qeq_alt in Hc.
      apply IH.
      * rewrite lookup_app_l; [assumption | eapply lookup_lt_Some; eassumption].
      * intros j y Hj. apply lookup_app_Some in Hj as [Hj | [_ Hj]].
        -- eauto.
        -- apply list_lookup_singleton_Some in Hj as [_ <-]. lra.
      * intros j y Hlt Hj. apply lookup_app_Some in Hj as [Hj | [Hge _]].
        -- eauto.
        -- apply lookup_lt_Some in Hb. lia.
    + apply Qlt_alt in Hc.
      apply IH.
      * rewrite lookup_app_r by lia. rewrite Nat.sub_diag. reflexivity.
      * intros j y Hj. apply lookup_app_Some in Hj as [Hj | [_ Hj]].
        -- specialize (Hmin _ _ Hj). lra.
        -- apply list_lookup_singleton_Some in Hj as [_ <-]. lra.
      * intros j y Hlt Hj. rewrite lookup_app_l in Hj by assumption.
        specialize (Hmin _ _ Hj). lra.
    + apply Qgt_alt in Hc.
      apply IH.
      * rewrite lookup_app_l; [assumption | eapply lookup_lt_Some; eassumption].
      * intros j y Hj. apply lookup_app_Some in Hj as [Hj | [_ Hj]].
        -- eauto.
        -- apply list_lookup_singleton_Some in Hj as [_ <-]. lra.
      * intros j y Hlt Hj. apply lookup_app_Some in Hj as [Hj | [Hge _]].
        -- eauto.
        -- apply lookup_lt_Some in Hb. lia.
Qed.

(** [argmin] returns the smallest index of the minimum of a non-empty
    array. *)
Lemma argmin_first (l : list Q) (i : nat) :
  argmin l = Some i -> first_argmin l i.
Proof.
  destruct l as [|x l]; simpl; [discriminate|].
  intros [= <-].
  apply (argmin_from_first l [x] 0%nat x).
  - reflexivity.
  - intros j y Hj. apply list_lookup_singleton_Some in Hj as [_ <-]. lra.
  - intros j y Hlt. lia.
Qed.

Lemma argmin_is_Some (l : list Q) : l <> [] -> is_Some (argmin l).
Proof. destruct l; [congruence | eexists; reflexivity]. Qed.

Lemma argmin_None (l : list Q) : argmin l = None <-> l = [].
Proof. destruct l; simpl; split; congruence. Qed.

(** The smallest index of the minimum is unique. *)
Lemma first_argmin_unique (l : list Q) (i j : nat) :
  first_argmin l i -> first_argmin l j -> i = j.
Proof.
  intros (v & Hv & Hmin & Hfirst) (u & Hu & Hmin' & Hfirst').
  destruct (Nat.lt_trichotomy i j) as [Hlt | [-> | Hlt]]; [|reflexivity|].
  - specialize (Hfirst' _ _ Hlt Hv). specialize (Hmin _ _ Hu). lra.
  - specialize (Hfirst _ _ Hlt Hu). specialize (Hmin' _ _ Hv). lra.
Qed.

End Argmin.

(** * Properties of [_align_text] *)

Lemma length_tail {A} (l : list A) : length (tail l) = (length l - 1)%nat.
Proof. destruct l; simpl; lia. Qed.

Section AlignText.

(** The indexed loop builds the intervals between consecutive anchors. *)
Lemma compute_map_intervals (real_anchors : list real_anchor) :
  compute_map real_anchors = Some (intervals_of real_anchors).
Proof.
  unfold compute_map, intervals_of.
  apply mapM_Some_2, Forall2_same_length_lookup_2.
  - rewrite length_seq, length_zip_with, length_tail. lia.
  - intros i k iv Hk Hiv.
    apply lookup_seq in Hk as [-> Hlt]. simpl.
    rewrite lookup_zip_with, lookup_tail in Hiv.
    replace (i + 1)%nat with (S i) by lia.
    destruct (real_anchors !! i) as [cur|]; [|discriminate]. simpl in *.
    destruct (real_anchors !! S i) as [nxt|]; [|discriminate]. simpl in *.
    congruence.
Qed.

Lemma length_intervals_of (real_anchors : list real_anchor) :
  length (intervals_of real_anchors) = (length real_anchors - 1)%nat.
Proof.
  unfold intervals_of. rewrite length_zip_with, length_tail. lia.
Qed.

Lemma lookup_intervals_of (real_anchors : list real_anchor) (k : nat)
    (cur nxt : real_anchor) :
  real_anchors !! k = Some cur ->
  real_anchors !! S k = Some nxt ->
  intervals_of real_anchors !! k
  = Some (Interval (ra_time cur) (ra_time nxt) (ra_id cur) (ra_text cur)).
Proof.
  intros Hc Hn. unfold intervals_of.
  rewrite lookup_zip_with, lookup_tail, Hc, Hn. reflexivity.
Qed.

Lemma lookup_intervals_of_inv (real_anchors : list real_anchor) (k : nat)
    (iv : interval) :
  intervals_of real_anchors !! k = Some iv ->
  exists cur nxt, real_anchors !! k = Some cur /\ real_anchors !! S k = Some nxt
    /\ iv = Interval (ra_time cur) (ra_time nxt) (ra_id cur) (ra_text cur).
Proof.
  unfold intervals_of. rewrite lookup_zip_with, lookup_tail.
  destruct (real_anchors !! k) as [cur|]; [|discriminate]. simpl.
  destruct (real_anchors !! S k) as [nxt|]; [|discriminate]. simpl.
  intros [= <-]. eauto.
Qed.

Variable wave_map : list (Q * Q).
Let real_times := map fst wave_map.
Let synt_times := map snd wave_map.

(** What [project_anchor] returns when it returns. *)
Lemma project_anchor_inv (a : anchor) (ra : real_anchor) :
  project_anchor real_times synt_times a = Some ra ->
  exists index real_time,
    first_argmin (abs_diff synt_times (a_time a)) index
    /\ real_times !! index = Some real_time
    /\ ra = RealAnchor real_time (Some (a_id a)) (Some (a_text a)).
Proof.
  unfold project_anchor. intros H.
  destruct (argmin (abs_diff synt_times (a_time a))) as [index|] eqn:Hi;
    [|discriminate]. simpl in H.
  destruct (real_times !! index) as [real_time|] eqn:Hr; [|discriminate].
  simpl in H. injection H as <-.
  exists index, real_time. split; [|split]; auto using argmin_first.
Qed.

(** On a wave map with at least one row every anchor is projected. *)
Lemma project_anchor_is_Some (a : anchor) :
  wave_map <> [] -> is_Some (project_anchor real_times synt_times a).
Proof.
  intros Hne. unfold project_anchor.
  destruct (argmin (abs_diff synt_times (a_time a))) as [index|] eqn:Hi.
  - simpl. pose proof (argmin_first _ _ Hi) as (v & Hv & _).
    apply lookup_lt_Some in Hv.
    unfold abs_diff, synt_times in Hv. rewrite !length_map in Hv.
    destruct (lookup_lt_is_Some_2 real_times index) as [rt Hrt].
    { unfold real_times. rewrite length_map. exact Hv. }
    rewrite Hrt. simpl. eauto.
  - apply argmin_None in Hi. unfold abs_diff, synt_times in Hi.
    apply (f_equal length) in Hi. rewrite !length_map in Hi.
    destruct wave_map; [congruence | discriminate].
Qed.

(** [_align_text] on a wave map with at least one row. *)
Lemma align_text_Some (synt_anchors : list anchor) :
  wave_map <> [] ->
  exists real_anchors last_time,
    Forall2 (fun a ra => project_anchor real_times synt_times a = Some ra)
            synt_anchors real_anchors
    /\ last real_times = Some last_time
    /\ _align_text wave_map synt_anchors
       = Some (intervals_of (real_anchors ++ [RealAnchor last_time None None])).
Proof.
  intros Hne.
  destruct (mapM_is_Some_2 (project_anchor real_times synt_times) synt_anchors)
    as [real_anchors Hras].
  { apply Forall_forall. intros a _. apply project_anchor_is_Some, Hne. }
  destruct (last real_times) as [last_time|] eqn:Hlast.
  2:{ apply last_None in Hlast. unfold real_times in Hlast.
      destruct wave_map; [congruence | discriminate]. }
  exists real_anchors, last_time. split; [|split].
  - apply mapM_Some_1, Hras.
  - reflexivity.
  - unfold _align_text. fold real_times synt_times.
    rewrite Hras. simpl. rewrite Hlast. simpl.
    apply compute_map_intervals.
Qed.

(** [_align_text] fails on the empty wave map with anchors to project. *)
Lemma align_text_inv (synt_anchors : list anchor) (m : list interval) :
  _align_text wave_map synt_anchors = Some m ->
  exists real_anchors last_time,
    Forall2 (fun a ra => project_anchor real_times synt_times a = Some ra)
            synt_anchors real_anchors
    /\ last real_times = Some last_time
    /\ m = intervals_of (real_anchors ++ [RealAnchor last_time None None]).
Proof.
  unfold _align_text. fold real_times synt_times. intros H.
  destruct (mapM _ synt_anchors) as [real_anchors|] eqn:Hras; [|discriminate].
  simpl in H.
  destruct (last real_times) as [last_time|] eqn:Hlast; [|discriminate].
  simpl in H. rewrite compute_map_intervals in H. injection H as <-.
  exists real_anchors, last_time. split; [|split]; auto.
  apply mapM_Some_1, Hras.
Qed.

End AlignText.

Lemma lookup_map {A B} (f : A -> B) (l : list A) (i : nat) :
  map f l !! i = f <$> l !! i.
Proof. exact (list_lookup_fmap f l i). Qed.

Lemma lookup_abs_diff (s : list Q) (t : Q) (i : nat) (v : Q) :
  abs_diff s t !! i = Some v <-> exists x, s !! i = Some x /\ v = Qabs (x - t).
Proof.
  unfold abs_diff. rewrite lookup_map.
  destruct (s !! i) as [x|]; simpl; split.
  - intros [= <-]. eauto.
  - intros (y & [= <-] & ->). reflexivity.
  - discriminate.
  - intros (y & Hy & _). discriminate.
Qed.

(** On non-decreasing synthetic times, a later anchor is never projected on
    an earlier row. *)
Lemma first_argmin_monotone (s : list Q) (t t' : Q) (i j : nat) :
  nondecreasing s -> t <= t' ->
  first_argmin (abs_diff s t) i -> first_argmin (abs_diff s t') j ->
  (i <= j)%nat.
Proof.
  intros Hs Htt (v & Hv & _ & Hfirst) (u & Hu & Hmin & _).
  destruct (le_lt_dec i j) as [Hle | Hlt]; [exact Hle | exfalso].
  apply lookup_abs_diff in Hv as (si & Hsi & ->).
  apply lookup_abs_diff in Hu as (sj & Hsj & ->).
  assert (Hji : sj <= si) by (apply (Hs j i sj si); [lia | assumption..]).
  assert (H1 : Qabs (si - t) < Qabs (sj - t)).
  { apply (Hfirst j); [exact Hlt|]. apply lookup_abs_diff. eauto. }
  assert (H2 : Qabs (sj - t') <= Qabs (si - t')).
  { apply (Hmin i). apply lookup_abs_diff. eauto. }
  revert H1 H2.
  apply (Qabs_case (si - t)); apply (Qabs_case (sj - t));
    apply (Qabs_case (sj - t')); apply (Qabs_case (si - t')); intros; lra.
Qed.

(** The durations of the intervals between consecutive anchors telescope. *)
Lemma sum_durations_intervals_of (real_anchors : list real_anchor)
    (first last_ : real_anchor) :
  real_anchors !! 0%nat = Some first -> last real_anchors = Some last_ ->
  sum_durations (intervals_of real_anchors) == ra_time last_ - ra_time first.
Proof.
  revert first.
  induction real_anchors as [|a [|b rest] IH]; intros first Hf Hl.
  - discriminate.
  - simpl in *. injection Hf as <-. injection Hl as <-.
    unfold sum_durations, intervals_of. simpl. lra.
  - injection Hf as <-. rewrite last_cons_cons in Hl.
    specialize (IH b eq_refl Hl).
    change (intervals_of (a :: b :: rest))
      with (Interval (ra_time a) (ra_time b) (ra_id a) (ra_text a)
            :: intervals_of (b :: rest)).
    unfold sum_durations in *. simpl foldr at 1. simpl i_end. simpl i_start.
    rewrite IH. lra.
Qed.

Section AlignTextMonotone.

Variable wave_map : list (Q * Q).
Variable synt_anchors : list anchor.
Hypothesis real_sorted : nondecreasing (map fst wave_map).
Hypothesis synt_sorted : nondecreasing (map snd wave_map).
Hypothesis anchors_sorted : nondecreasing (map a_time synt_anchors).

(** The projected times, followed by the last real time, never decrease. *)
Lemma real_anchors_nondecreasing (real_anchors : list real_anchor) (last_time : Q) :
  Forall2 (fun a ra => project_anchor (map fst wave_map) (map snd wave_map) a = Some ra)
          synt_anchors real_anchors ->
  last (map fst wave_map) = Some last_time ->
  nondecreasing (map ra_time (real_anchors ++ [RealAnchor last_time None None])).
Proof.
  intros Hall Hlast i j x y Hij Hx Hy.
  rewrite lookup_map in Hx, Hy.
  destruct ((real_anchors ++ _) !! i) as [rai|] eqn:Hi; [|discriminate].
  destruct ((real_anchors ++ _) !! j) as [raj|] eqn:Hj; [|discriminate].
  simpl in Hx, Hy. injection Hx as <-. injection Hy as <-.
  rewrite last_lookup in Hlast.
  apply lookup_app_Some in Hi as [Hi | [Hige Hi]].
  - destruct (Forall2_lookup_r _ _ _ _ _ Hall Hi) as (ai & Hai & Hpi).
    apply project_anchor_inv in Hpi as (ii & ti & Hargi & Hti & ->). simpl.
    apply lookup_app_Some in Hj as [Hj | [_ Hj]].
    + destruct (Forall2_lookup_r _ _ _ _ _ Hall Hj) as (aj & Haj & Hpj).
      apply project_anchor_inv in Hpj as (jj & tj & Hargj & Htj & ->). simpl.
      apply (real_sorted ii jj); [|assumption..].
      apply (first_argmin_monotone (map snd wave_map) (a_time ai) (a_time aj));
        [assumption | | assumption..].
      apply (anchors_sorted i j); [assumption| |]; rewrite lookup_map.
      * rewrite Hai. reflexivity.
      * rewrite Haj. reflexivity.
    + apply list_lookup_singleton_Some in Hj as [_ <-]. simpl.
      apply (real_sorted ii (pred (length (map fst wave_map)))); [|assumption..].
      apply lookup_lt_Some in Hti. lia.
  - apply list_lookup_singleton_Some in Hi as [Hi0 <-]. simpl.
    apply lookup_app_Some in Hj as [Hj | [_ Hj]].
    + apply lookup_lt_Some in Hj. lia.
    + apply list_lookup_singleton_Some in Hj as [_ <-]. simpl. lra.
Qed.

End AlignTextMonotone.

Lemma nondecreasing_012 : nondecreasing [0; 1; 2].
Proof.
  intros i j x y Hij Hx Hy.
  destruct i as [|[|[|i]]]; destruct j as [|[|[|j]]];
    simpl in Hx, Hy; try discriminate; try lia;
    injection Hx as <-; injection Hy as <-; lra.
Qed.

Lemma nondecreasing_singleton (x : Q) : nondecreasing [x].
Proof.
  intros i j y z _ Hy Hz.
  apply list_lookup_singleton_Some in Hy as [_ <-].
  apply list_lookup_singleton_Some in Hz as [_ <-]. lra.
Qed.

(** * Properties of [_translate_text_map] *)

(** The loop of [_translate_text_map] appends the shifted rows and leaves
    [end] at the last shifted end. *)
Lemma foldl_translate_step (head : Q) (text_map : list interval)
    (translated : list interval) (end_ : Q) :
  foldl (translate_step head) (translated, end_) text_map
  = (translated ++ map (shift head) text_map,
     match last text_map with Some iv => i_end iv + head | None => end_ end).
Proof.
  revert translated end_.
  induction text_map as [|iv text_map IH]; intros translated end_; simpl.
  - rewrite app_nil_r. reflexivity.
  - unfold translate_step at 2. simpl. rewrite IH.
    rewrite <- app_assoc. simpl. f_equal.
    rewrite last_cons. destruct (last text_map); reflexivity.
Qed.

Lemma translate_text_map_nonempty (self : ExecuteTask) (text_map : list interval)
    (real_full_wave_length : Q) (last_iv : interval) :
  last text_map = Some last_iv ->
  _translate_text_map self text_map real_full_wave_length
  = Some (Interval 0 (safe_float (is_audio_file_head_length (configuration (task self))) 0)
                   None None
          :: map (shift (safe_float (is_audio_file_head_length (configuration (task self))) 0))
                 text_map
          ++ [Interval (i_end last_iv
                        + safe_float (is_audio_file_head_length (configuration (task self))) 0)
                       real_full_wave_length None None]).
Proof.
  intros Hlast. unfold _translate_text_map.
  destruct (decide (length text_map = 0%nat)) as [H0|_].
  { destruct text_map; [discriminate Hlast | discriminate H0]. }
  rewrite foldl_translate_step, Hlast. reflexivity.
Qed.

Lemma translate_text_map_inv (self : ExecuteTask) (text_map translated : list interval)
    (real_full_wave_length : Q) :
  _translate_text_map self text_map real_full_wave_length = Some translated ->
  exists last_iv, last text_map = Some last_iv.
Proof.
  unfold _translate_text_map.
  destruct (decide (length text_map = 0%nat)) as [H0|Hn]; [discriminate|].
  intros _. destruct (last text_map) as [iv|] eqn:Hl; [eauto|].
  apply last_None in Hl. subst. contradiction Hn. reflexivity.
Qed.

(** * Properties of [_create_syncmap] *)

Section CreateSyncMap.

(** The two assignments of the STRETCH case, row by row. *)
Lemma stretch_spec (m : list interval) (head tail : interval) :
  (2 <= length m)%nat ->
  m !! 0%nat = Some head -> last m = Some tail ->
  exists m',
    stretch m = Some m'
    /\ length m' = length m
    /\ forall i row, (1 <= i <= length m - 2)%nat -> m !! i = Some row ->
         m' !! i = Some (Interval
                           (if decide (i = 1%nat) then i_start head else i_start row)
                           (if decide (i = (length m - 2)%nat) then i_end tail
                            else i_end row)
                           (i_id row) (i_text row)).
Proof.
  intros Hlen Hhead Htail. unfold stretch. rewrite Hhead. simpl.
  destruct (lookup_lt_is_Some_2 m 1%nat) as [row1 Hrow1]; [lia|].
  rewrite Hrow1. simpl.
  set (m1 := <[1%nat := with_start row1 (i_start head)]> m).
  assert (Hlen1 : length m1 = length m) by apply length_insert.
  destruct (lookup_lt_is_Some_2 m1 (pred (length m1))) as [tail1 Htail1]; [lia|].
  rewrite last_lookup, Htail1. simpl.
  destruct (lookup_lt_is_Some_2 m1 (length m1 - 2)%nat) as [row2 Hrow2]; [lia|].
  rewrite Hrow2. simpl.
  eexists. split; [reflexivity|]. split; [rewrite length_insert; exact Hlen1|].
  intros i row Hi Hrow.
  rewrite last_lookup in Htail.
  assert (Ht : i_end tail1 = i_end tail).
  { rewrite Hlen1 in Htail1. unfold m1 in Htail1.
    rewrite list_lookup_insert_ne in Htail1 by lia. congruence. }
  rewrite Hlen1 in *.
  destruct (decide (i = (length m - 2)%nat)) as [->|Hne2].
  - rewrite list_lookup_insert_eq by lia. rewrite Ht.
    unfold m1 in Hrow2.
    destruct (decide ((length m - 2)%nat = 1%nat)) as [E|Hne1].
    + rewrite E in *. rewrite list_lookup_insert_eq in Hrow2 by lia.
      injection Hrow2 as <-. replace row with row1 by congruence. reflexivity.
    + rewrite list_lookup_insert_ne in Hrow2 by lia.
      replace row2 with row by congruence. reflexivity.
  - rewrite list_lookup_insert_ne by lia. unfold m1.
    destruct (decide (i = 1%nat)) as [->|Hne1].
    + rewrite list_lookup_insert_eq by lia.
      replace row with row1 by congruence. reflexivity.
    + rewrite list_lookup_insert_ne by lia. rewrite Hrow. destruct row; reflexivity.
Qed.

(** The loop over the fragments reads the rows 1 to [len(fragments)]. *)
Lemma fragment_rows_spec (m : list interval) (frags : list TextFragment) :
  (length frags < length m)%nat ->
  exists rows,
    fragment_rows m frags = Some rows
    /\ length rows = length frags
    /\ forall k f row, frags !! k = Some f -> m !! S k = Some row ->
         rows !! k = Some {| text_fragment := f; sm_begin := i_start row;
                             sm_end := i_end row |}.
Proof.
  intros Hlen. unfold fragment_rows.
  match goal with |- context [mapM ?f ?l] =>
    destruct (mapM_is_Some_2 f l) as [rows Hrows] end.
  { apply Forall_forall. intros [i f] Hin.
    apply list_elem_of_lookup in Hin as [k Hk].
    rewrite list_lookup_imap in Hk.
    destruct (frags !! k) as [f'|] eqn:Hf; [|discriminate].
    simpl in Hk. injection Hk as <- <-.
    apply lookup_lt_Some in Hf. simpl.
    destruct (lookup_lt_is_Some_2 m (k + 1)%nat) as [row Hrow]; [lia|].
    rewrite Hrow. simpl. eauto. }
  exists rows. split; [exact Hrows|].
  apply mapM_Some_1 in Hrows.
  split.
  - rewrite <- (Forall2_length _ _ _ Hrows). apply length_imap.
  - intros k f row Hf Hrow.
    destruct (Forall2_lookup_l _ _ _ k (k, f) Hrows) as (r & Hr & Hfr).
    { rewrite list_lookup_imap, Hf. reflexivity. }
    simpl in Hfr. replace (k + 1)%nat with (S k) in Hfr by lia.
    rewrite Hrow in Hfr. simpl in Hfr. congruence.
Qed.

End CreateSyncMap.

(** The number of entries of the sync map built from an adjusted map with
    two rows more than there are fragments. *)
Lemma build_sync_map_length (c : TaskConfiguration) (frags : list TextFragment)
    (adjusted_map : list interval) :
  length adjusted_map = (length frags + 2)%nat ->
  exists sync_map,
    build_sync_map c frags adjusted_map = Some sync_map
    /\ length sync_map
       = if decide (os_file_head_tail_format c = Some ADD)
         then (length frags + 2)%nat else length frags.
Proof.
  intros Hlen. unfold build_sync_map.
  destruct (lookup_lt_is_Some_2 adjusted_map 0%nat) as [head Hhead]; [lia|].
  destruct (last adjusted_map) as [tail|] eqn:Htail.
  2:{ apply last_None in Htail. subst. simpl in Hlen. lia. }
  rewrite Hhead. simpl.
  destruct (decide (os_file_head_tail_format c = Some STRETCH)) as [Hs|Hs].
  - destruct (stretch_spec adjusted_map head tail) as (m' & Hm' & Hlen' & _);
      [lia | assumption.. |].
    rewrite Hm'. simpl.
    destruct (fragment_rows_spec m' frags) as (rows & Hrows & Hlr & _); [lia|].
    rewrite Hrows. simpl.
    destruct (decide (os_file_head_tail_format c = Some ADD)) as [Ha|Ha];
      [congruence|].
    eexists. split; [reflexivity|]. simpl. exact Hlr.
  - simpl.
    destruct (fragment_rows_spec adjusted_map frags) as (rows & Hrows & Hlr & _); [lia|].
    rewrite Hrows. simpl.
    destruct (decide (os_file_head_tail_format c = Some ADD)) as [Ha|Ha];
      (eexists; split; [reflexivity|]).
    + rewrite length_app. simpl. rewrite Hlr. lia.
    + simpl. exact Hlr.
Qed.

(** The HEAD row of a translated map starts at 0 and its TAIL row ends at the
    full length of the audio. *)
Lemma translate_text_map_head_tail (self : ExecuteTask)
    (text_map translated : list interval) (real_full_wave_length : Q)
    (head tail : interval) :
  _translate_text_map self text_map real_full_wave_length = Some translated ->
  translated !! 0%nat = Some head -> last translated = Some tail ->
  i_start head = 0 /\ i_end tail = real_full_wave_length.
Proof.
  intros Htr Hhead Htail.
  destruct (translate_text_map_inv _ _ _ _ Htr) as [last_iv Hlast].
  rewrite (translate_text_map_nonempty _ _ _ _ Hlast) in Htr.
  injection Htr as <-. simpl in Hhead. injection Hhead as <-.
  rewrite app_comm_cons, last_snoc in Htail. injection Htail as <-.
  split; reflexivity.
Qed.

(** * Properties of [_adjust_boundaries] *)

(** Without an algorithm, or with AUTO, [_adjust_boundaries] returns at
    once. *)
Lemma adjust_boundaries_noop (ext : Externals) (self : ExecuteTask)
    (text_map : list interval) (real_wave_full_mfcc : mfcc) (real_wave_length : Q)
    (w : World) :
  adjust_boundary_algorithm (configuration (task self)) = None
  \/ adjust_boundary_algorithm (configuration (task self)) = Some AUTO ->
  _adjust_boundaries ext self text_map real_wave_full_mfcc real_wave_length w
  = (Some text_map, w).
Proof.
  intros [H|H]; unfold _adjust_boundaries; rewrite H; reflexivity.
Qed.

(** Every other algorithm runs the voice activity detector once. *)
Lemma adjust_boundaries_runs_vad (ext : Externals) (self : ExecuteTask)
    (text_map : list interval) (real_wave_full_mfcc : mfcc) (real_wave_length : Q)
    (w : World) (algo : AdjustBoundaryAlgorithm) :
  adjust_boundary_algorithm (configuration (task self)) = Some algo ->
  algo <> AUTO ->
  vad_runs (_adjust_boundaries ext self text_map real_wave_full_mfcc
              real_wave_length w).2 = S (vad_runs w).
Proof.
  intros H Hne. unfold _adjust_boundaries. rewrite H.
  destruct algo; try contradiction;
    destruct (ext_compute_vad ext real_wave_full_mfcc real_wave_length); reflexivity.
Qed.

(** [_adjust_boundaries] touches neither the handlers nor the files. *)
Lemma adjust_boundaries_world (ext : Externals) (self : ExecuteTask)
    (text_map : list interval) (real_wave_full_mfcc : mfcc) (real_wave_length : Q)
    (w : World) :
  open_handlers (_adjust_boundaries ext self text_map real_wave_full_mfcc
                   real_wave_length w).2 = open_handlers w
  /\ files (_adjust_boundaries ext self text_map real_wave_full_mfcc
              real_wave_length w).2 = files w.
Proof.
  unfold _adjust_boundaries.
  destruct (adjust_boundary_algorithm (configuration (task self))) as [[]|];
    try (split; reflexivity);
    destruct (ext_compute_vad ext real_wave_full_mfcc real_wave_length);
    split; reflexivity.
Qed.

(** * Properties of [_cleanup] *)

(** [_cleanup] closes every recorded handler and removes every recorded
    path. *)
Lemma foldl_cleanup_step (l : list (option Z * option string)) (w : World) :
  open_handlers (foldl cleanup_step w l) = open_handlers w ∖ recorded_handlers l
  /\ files (foldl cleanup_step w l) = files w ∖ recorded_paths l
  /\ vad_runs (foldl cleanup_step w l) = vad_runs w.
Proof.
  revert w. unfold recorded_handlers, recorded_paths.
  induction l as [|[handler path] l IH]; intros w; simpl.
  - split; [|split]; [set_solver.. | reflexivity].
  - destruct (IH (cleanup_step w (handler, path))) as (Hh & Hf & Hv).
    rewrite Hh, Hf, Hv. unfold cleanup_step. simpl.
    destruct handler as [h|], path as [p|]; simpl;
      (split; [|split]; [set_solver.. | reflexivity]).
Qed.

Lemma cleanup_spec (self : ExecuteTask) (w : World) :
  cleanup_info (_cleanup self w).1 = []
  /\ task (_cleanup self w).1 = task self
  /\ open_handlers (_cleanup self w).2
     = open_handlers w ∖ recorded_handlers (cleanup_info self)
  /\ files (_cleanup self w).2 = files w ∖ recorded_paths (cleanup_info self).
Proof.
  unfold _cleanup. simpl.
  destruct (foldl_cleanup_step (cleanup_info self) w) as (Hh & Hf & _).
  repeat split; assumption.
Qed.

(** * Properties of [execute] *)

Lemma stage_failure_eq (self : ExecuteTask) (w : World) :
  stage_failure self w = (Returns false, (_cleanup self w).1, (_cleanup self w).2).
Proof. reflexivity. Qed.

(** STEP 4 to STEP 9 always return, after the cleanup; the task is changed
    only by a successful run, and only in its sync map. *)
Lemma execute_from_step4_spec (ext : Externals) (self : ExecuteTask) (w : World)
    (real_trimmed_path synt_path : option string) (synt_anchors : option (list anchor))
    (real_full_wave_full_mfcc : mfcc) (real_full_wave_length : Q) :
  is_Some (text_file (task self)) ->
  exists (r : bool) (self' : ExecuteTask) (w7 : World),
    execute_from_step4 ext self w real_trimmed_path synt_path synt_anchors
      real_full_wave_full_mfcc real_full_wave_length
    = (Returns r, self', (_cleanup self w7).2)
    /\ cleanup_info self' = []
    /\ open_handlers w7 = open_handlers w
    /\ files w7 = files w
    /\ if r then run_succeeded ext self w real_trimmed_path synt_path synt_anchors
                   real_full_wave_full_mfcc real_full_wave_length self' w7
       else task self' = task self.
Proof.
  intros [tf Htf]. unfold execute_from_step4.
  destruct (_align_waves ext real_trimmed_path synt_path) as [wave_map|] eqn:Hw.
  2:{ exists false, (_cleanup self w).1, w. rewrite stage_failure_eq. auto. }
  destruct synt_anchors as [anchors|]; simpl.
  2:{ exists false, (_cleanup self w).1, w. rewrite stage_failure_eq. auto. }
  destruct (_align_text wave_map anchors) as [text_map|] eqn:Ht.
  2:{ exists false, (_cleanup self w).1, w. rewrite stage_failure_eq. auto. }
  destruct (_translate_text_map self text_map real_full_wave_length)
    as [translated|] eqn:Htr.
  2:{ exists false, (_cleanup self w).1, w. rewrite stage_failure_eq. auto. }
  pose proof (adjust_boundaries_world ext self translated real_full_wave_full_mfcc
                real_full_wave_length w) as [Hh7 Hf7].
  destruct (_adjust_boundaries ext self translated real_full_wave_full_mfcc
              real_full_wave_length w) as [[adjusted|] w7] eqn:Ha; simpl in Hh7, Hf7.
  2:{ exists false, (_cleanup self w7).1, w7. rewrite stage_failure_eq. auto. }
  unfold _create_syncmap. rewrite Htf.
  destruct (decide (length adjusted ≠ (length (fragments tf) + 2)%nat)) as [Hl|Hl].
  { exists false, (_cleanup self w7).1, w7. rewrite stage_failure_eq. auto. }
  apply dec_stable in Hl.
  destruct (build_sync_map (configuration (task self)) (fragments tf) adjusted)
    as [sync_map_|] eqn:Hb.
  2:{ exists false, (_cleanup self w7).1, w7. rewrite stage_failure_eq. auto. }
  exists true, (_cleanup (set_task self (set_sync_map (task self) sync_map_)) w7).1, w7.
  split; [reflexivity|]. split; [reflexivity|]. split; [assumption|].
  split; [assumption|].
  exists wave_map, anchors, text_map, translated, adjusted, tf, sync_map_.
  repeat split; auto.
Qed.

(** [_cut_head_tail] changes nothing but the configuration of the task. *)
Lemma cut_head_tail_frame (ext : Externals) (self : ExecuteTask)
    (audio_file_path : option string) :
  cleanup_info (_cut_head_tail ext self audio_file_path).2 = cleanup_info self
  /\ audio_file (task (_cut_head_tail ext self audio_file_path).2)
     = audio_file (task self)
  /\ audio_file_path_absolute (task (_cut_head_tail ext self audio_file_path).2)
     = audio_file_path_absolute (task self)
  /\ text_file (task (_cut_head_tail ext self audio_file_path).2)
     = text_file (task self)
  /\ sync_map (task (_cut_head_tail ext self audio_file_path).2)
     = sync_map (task self).
Proof.
  unfold _cut_head_tail, trim_and_write.
  repeat match goal with
         | |- context [if ?b then _ else _] => destruct b
         | |- context [match ?o with Some _ => _ | None => _ end] => destruct o
         end; simpl; repeat split; reflexivity.
Qed.

(** [_convert] and [_synthesize] only create what they return. *)
Lemma convert_world (ext : Externals) (self : ExecuteTask) (w : World) :
  open_handlers (_convert ext self w).2
  = recorded_handlers [((_convert ext self w).1.1.2, (_convert ext self w).1.2)]
    ∪ open_handlers w
  /\ files (_convert ext self w).2
     = recorded_paths [((_convert ext self w).1.1.2, (_convert ext self w).1.2)]
       ∪ files w.
Proof.
  unfold _convert, recorded_handlers, recorded_paths.
  destruct (ext_mkstemp_real ext) as [[h p]|]; simpl.
  - destruct (ext_ffmpeg_convert ext _ p); simpl; split; set_solver.
  - split; set_solver.
Qed.

Lemma synthesize_world (ext : Externals) (self : ExecuteTask) (w : World) :
  open_handlers (_synthesize ext self w).2
  = recorded_handlers [((_synthesize ext self w).1.1.1.2, (_synthesize ext self w).1.1.2)]
    ∪ open_handlers w
  /\ files (_synthesize ext self w).2
     = recorded_paths [((_synthesize ext self w).1.1.1.2, (_synthesize ext self w).1.1.2)]
       ∪ files w.
Proof.
  unfold _synthesize, recorded_handlers, recorded_paths.
  destruct (ext_mkstemp_synt ext) as [[h p]|]; simpl.
  - destruct (ext_synthesize ext _ p); simpl; split; set_solver.
  - split; set_solver.
Qed.

(** The temporary file of a stage is registered whenever it was created. *)
Lemma convert_registered (ext : Externals) (self : ExecuteTask) (w : World)
    (h : Z) (p : string) :
  ext_mkstemp_real ext = Some (h, p) ->
  (_convert ext self w).1.1.2 = Some h /\ (_convert ext self w).1.2 = Some p.
Proof.
  intros H. unfold _convert. rewrite H.
  destruct (ext_ffmpeg_convert ext _ p); split; reflexivity.
Qed.

Lemma synthesize_registered (ext : Externals) (self : ExecuteTask) (w : World)
    (h : Z) (p : string) :
  ext_mkstemp_synt ext = Some (h, p) ->
  (_synthesize ext self w).1.1.1.2 = Some h /\ (_synthesize ext self w).1.1.2 = Some p.
Proof.
  intros H. unfold _synthesize. rewrite H.
  destruct (ext_synthesize ext _ p); split; reflexivity.
Qed.

(** The registry after the cleanup of a failed or finished run: nothing the
    run created is left, and what it registered is closed and removed. *)
Lemma cleanup_leaves_nothing (self : ExecuteTask) (w wpre : World) :
  open_handlers wpre ⊆ recorded_handlers (cleanup_info self) ∪ open_handlers w ->
  files wpre ⊆ recorded_paths (cleanup_info self) ∪ files w ->
  open_handlers (_cleanup self wpre).2 ⊆ open_handlers w
  /\ files (_cleanup self wpre).2 ⊆ files w
  /\ (forall h p, (Some h, Some p) ∈ cleanup_info self ->
        (h ∉ open_handlers (_cleanup self wpre).2) /\ (p ∉ files (_cleanup self wpre).2)).
Proof.
  intros Hh Hf.
  destruct (cleanup_spec self wpre) as (_ & _ & Eh & Ef). rewrite Eh, Ef.
  split; [set_solver|]. split; [set_solver|].
  intros h p Hin.
  assert (h ∈ recorded_handlers (cleanup_info self)).
  { unfold recorded_handlers. apply elem_of_list_to_set, list_elem_of_omap.
    exists (Some h, Some p). split; [exact Hin | reflexivity]. }
  assert (p ∈ recorded_paths (cleanup_info self)).
  { unfold recorded_paths. apply elem_of_list_to_set, list_elem_of_omap.
    exists (Some h, Some p). split; [exact Hin | reflexivity]. }
  split; set_solver.
Qed.

Lemma recorded_handlers_app (l k : list (option Z * option string)) :
  recorded_handlers (l ++ k) = recorded_handlers l ∪ recorded_handlers k.
Proof.
  unfold recorded_handlers. rewrite omap_app. apply list_to_set_app_L.
Qed.

Lemma recorded_paths_app (l k : list (option Z * option string)) :
  recorded_paths (l ++ k) = recorded_paths l ∪ recorded_paths k.
Proof.
  unfold recorded_paths. rewrite omap_app. apply list_to_set_app_L.
Qed.

(** STEP 0 to STEP 9, started with an empty registry: the run returns, the
    registry is empty again, no handler or file of the run is left, and the
    sync map of the task is changed by a successful run only. *)
Lemma execute_from_step0_spec (ext : Externals) (self : ExecuteTask) (w : World) :
  is_Some (text_file (task self)) -> cleanup_info self = [] ->
  step0_post ext self w (execute_from_step0 ext self w).
Proof.
  intros Htf Hreg. unfold execute_from_step0.
  pose proof (convert_world ext self w) as [Hh0 Hf0].
  pose proof (convert_registered ext self w) as Hreg0.
  assert (Hr3 : reaches_step3 ext self w
                = (_convert ext self w).1.1.1
                  && is_not_None (_extract_mfcc ext (_convert ext self w).1.2)
                  && (_cut_head_tail ext
                        (register self (_convert ext self w).1.1.2 (_convert ext self w).1.2)
                        (_convert ext self w).1.2).1) by reflexivity.
  destruct (_convert ext self w) as [[[result0 h0] p0] w0] eqn:Hc. simpl in *.
  set (self0 := register self h0 p0) in *.
  assert (Hinfo0 : cleanup_info self0 = [(h0, p0)]).
  { unfold self0, register. simpl. rewrite Hreg. reflexivity. }
  assert (Hfail0 : forall selfX : ExecuteTask,
             cleanup_info selfX = [(h0, p0)] ->
             sync_map (task selfX) = sync_map (task self) ->
             reaches_step3 ext self w = false ->
             step0_post ext self w (stage_failure selfX w0)).
  { intros selfX HX Hsm Hno.
    destruct (cleanup_leaves_nothing selfX w w0) as (A & B & C).
    { rewrite HX, Hh0. set_solver. }
    { rewrite HX, Hf0. set_solver. }
    exists false, (_cleanup selfX w0).1, (_cleanup selfX w0).2.
    split; [apply stage_failure_eq|]. split; [reflexivity|].
    split; [exact A|]. split; [exact B|]. split; [|split].
    - intros h p Hm. apply C. rewrite HX.
      destruct (Hreg0 h p Hm) as [-> ->]. apply list_elem_of_singleton. reflexivity.
    - intros h p Hyes. congruence.
    - exact Hsm. }
  destruct result0; simpl.
  2:{ apply Hfail0; [exact Hinfo0 | reflexivity | exact Hr3]. }
  destruct (_extract_mfcc ext p0) as [[mf L]|] eqn:He; simpl in *.
  2:{ apply Hfail0; [exact Hinfo0 | reflexivity | exact Hr3]. }
  pose proof (cut_head_tail_frame ext self0 p0) as (Hci2 & _ & _ & Htf2 & Hsm2).
  destruct (_cut_head_tail ext self0 p0) as [result2 self2] eqn:Hcut. simpl in *.
  rewrite Hinfo0 in Hci2.
  destruct result2; simpl.
  2:{ apply Hfail0; [exact Hci2 | exact Hsm2 | exact Hr3]. }
  pose proof (synthesize_world ext self2 w0) as [Hh3 Hf3].
  pose proof (synthesize_registered ext self2 w0) as Hreg3.
  destruct (_synthesize ext self2 w0) as [[[[result3 hs] ps] sa] w3] eqn:Hs.
  simpl in *.
  set (self3 := register self2 hs ps) in *.
  assert (Hinfo3 : cleanup_info self3 = [(h0, p0); (hs, ps)]).
  { unfold self3, register. simpl. rewrite Hci2. reflexivity. }
  assert (Hexit3 : forall w7 : World,
             open_handlers w7 = open_handlers w3 -> files w7 = files w3 ->
             open_handlers (_cleanup self3 w7).2 ⊆ open_handlers w
             /\ files (_cleanup self3 w7).2 ⊆ files w
             /\ (forall h p, ext_mkstemp_real ext = Some (h, p) ->
                   (h ∉ open_handlers (_cleanup self3 w7).2)
                   /\ (p ∉ files (_cleanup self3 w7).2))
             /\ (forall h p, ext_mkstemp_synt ext = Some (h, p) ->
                   (h ∉ open_handlers (_cleanup self3 w7).2)
                   /\ (p ∉ files (_cleanup self3 w7).2))).
  { intros w7 E1 E2.
    destruct (cleanup_leaves_nothing self3 w w7) as (A & B & C).
    { rewrite Hinfo3, E1, Hh3, Hh0.
      change [(h0, p0); (hs, ps)] with ([(h0, p0)] ++ [(hs, ps)]).
      rewrite recorded_handlers_app. set_solver. }
    { rewrite Hinfo3, E2, Hf3, Hf0.
      change [(h0, p0); (hs, ps)] with ([(h0, p0)] ++ [(hs, ps)]).
      rewrite recorded_paths_app. set_solver. }
    split; [exact A|]. split; [exact B|]. split.
    - intros h p Hm. apply C. rewrite Hinfo3.
      destruct (Hreg0 h p Hm) as [-> ->]. apply list_elem_of_here.
    - intros h p Hm. apply C. rewrite Hinfo3.
      destruct (Hreg3 h p Hm) as [-> ->].
      apply list_elem_of_further, list_elem_of_here. }
  destruct result3; simpl.
  2:{ destruct (Hexit3 w3 eq_refl eq_refl) as (A & B & C & D).
      exists false, (_cleanup self3 w3).1, (_cleanup self3 w3).2.
      split; [apply stage_failure_eq|]. split; [reflexivity|].
      split; [exact A|]. split; [exact B|]. split; [exact C|].
      split; [intros h p _; apply D | exact Hsm2]. }
  destruct (execute_from_step4_spec ext self3 w3 p0 ps sa mf L)
    as (r & self' & w7 & Heq & Hci' & E1 & E2 & Hr).
  { unfold self3, register. simpl. rewrite Htf2. exact Htf. }
  destruct (Hexit3 w7 E1 E2) as (A & B & C & D).
  exists r, self', (_cleanup self3 w7).2.
  split; [exact Heq|]. split; [exact Hci'|].
  split; [exact A|]. split; [exact B|]. split; [exact C|].
  split; [intros h p _; apply D|].
  destruct r.
  - exists h0, p0, w0, mf, L, self2, hs, ps, sa, w3, w7.
    split; [exact Hc|]. split; [exact He|]. split; [exact Hcut|].
    split; [exact Hs | exact Hr].
  - rewrite Hr. exact Hsm2.
Qed.

Lemma reaches_step0_inv (t : Task) :
  reaches_step0 t = true ->
  exists a tf, audio_file t = Some a /\ invalid_audio_length a = false
    /\ text_file t = Some tf /\ length (fragments tf) <> 0%nat.
Proof.
  unfold reaches_step0.
  destruct (audio_file t) as [a|]; [|discriminate].
  destruct (text_file t) as [tf|]; [|discriminate].
  intros H. apply andb_true_iff in H as [H1 H2].
  apply negb_true_iff in H1. apply negb_true_iff in H2.
  apply bool_decide_eq_false in H2.
  exists a, tf. split; [reflexivity|]. split; [exact H1|].
  split; [reflexivity | exact H2].
Qed.

(** [execute] either stops at its tests, returning [False] and changing
    nothing, or runs from STEP 0 on with an empty registry. *)
Lemma execute_cases (ext : Externals) (self : ExecuteTask) (w : World) :
  (reaches_step0 (task self) = false
   /\ execute ext self w = (Returns false, self, w))
  \/ (reaches_step0 (task self) = true
      /\ execute ext self w = execute_from_step0 ext (set_cleanup_info self []) w).
Proof.
  unfold execute, reaches_step0.
  destruct (audio_file (task self)) as [a|]; [|left; split; reflexivity].
  destruct (invalid_audio_length a).
  { left. split; [destruct (text_file (task self)); reflexivity | reflexivity]. }
  destruct (text_file (task self)) as [tf|]; [|left; split; reflexivity].
  destruct (decide (length (fragments tf) = 0%nat)) as [H|H].
  - left. rewrite bool_decide_eq_true_2 by exact H. split; reflexivity.
  - right. rewrite bool_decide_eq_false_2 by exact H. split; reflexivity.
Qed.

(** * Properties of [_cut_head_tail] *)

(** The configuration after [_cut_head_tail] when head and tail are
    detected. *)
Lemma cut_head_tail_detect (ext : Externals) (self : ExecuteTask)
    (audio_file_path : option string) (audio_length_ head tail : Q) :
  explicit (configuration (task self)) = false ->
  detect (configuration (task self)) = true ->
  ext_load_data ext audio_file_path = Some audio_length_ ->
  detected_head ext (configuration (task self)) = Some head ->
  detected_tail ext (configuration (task self)) = Some tail ->
  configuration (task (_cut_head_tail ext self audio_file_path).2)
  = set_head_process (configuration (task self))
      (Qmax 0 head) (Qmax 0 (audio_length_ - tail - head)).
Proof.
  intros He Hd Hl Hh Ht. unfold _cut_head_tail, trim_and_write.
  rewrite He, Hd, Hl, Hh, Ht. simpl.
  destruct (ext_trim_write ext _ _); reflexivity.
Qed.

(** After STEP 2 nothing changes the configuration of the task. *)
Lemma execute_configuration (ext : Externals) (self : ExecuteTask) (w w0 : World)
    (h0 : option Z) (p0 : option string) :
  reaches_step0 (task self) = true ->
  _convert ext (set_cleanup_info self []) w = ((true, h0, p0), w0) ->
  is_Some (_extract_mfcc ext p0) ->
  configuration (task (execute ext self w).1.2)
  = configuration
      (task (_cut_head_tail ext (register (set_cleanup_info self []) h0 p0) p0).2).
Proof.
  intros Hreach Hc [[mf L] He].
  destruct (execute_cases ext self w) as [[Hno _] | [_ ->]]; [congruence|].
  apply reaches_step0_inv in Hreach as (a & tf & _ & _ & Htf & _).
  unfold execute_from_step0. rewrite Hc. simpl. rewrite He.
  pose proof (cut_head_tail_frame ext (register (set_cleanup_info self []) h0 p0) p0)
    as (_ & _ & _ & Htf2 & _).
  destruct (_cut_head_tail ext (register (set_cleanup_info self []) h0 p0) p0)
    as [result2 self2]. simpl in *.
  destruct result2; simpl; [|reflexivity].
  destruct (_synthesize ext self2 w0) as [[[[result3 hs] ps] sa] w3].
  destruct result3; simpl; [|reflexivity].
  destruct (execute_from_step4_spec ext (register self2 hs ps) w3 p0 ps sa mf L)
    as (r & self' & w7 & -> & _ & _ & _ & Hr).
  { simpl. rewrite Htf2, Htf. eauto. }
  simpl. destruct r.
  - destruct Hr as (? & ? & ? & ? & ? & ? & sm & _ & _ & _ & _ & _ & _ & _ & _ & ->).
    reflexivity.
  - rewrite Hr. reflexivity.
Qed.

(** * Contiguity *)

Lemma contiguous_map_after_0 (m : list interval) :
  contiguous_map m -> contiguous_map_after 0 m.
Proof.
  intros Hm i a b Ha Hb. rewrite (Hm i a b Ha Hb).
  destruct (decide (i = 0%nat)); lra.
Qed.

Lemma contiguous_after_0 (gap : Q) (sm : SyncMap) :
  contiguous_after gap sm -> gap == 0 -> contiguous sm.
Proof.
  intros Hsm Hg i a b Ha Hb. rewrite (Hsm i a b Ha Hb).
  destruct (decide (i = 0%nat)); lra.
Qed.

(** A sync map that has all the rows of an interval map has its gap. *)
Lemma rows_from_0_contiguous (gap : Q) (m : list interval) (sm : SyncMap) :
  rows_from 0 m sm -> contiguous_map_after gap m -> contiguous_after gap sm.
Proof.
  intros Hrows Hm i a b Ha Hb.
  destruct (Hrows _ _ Ha) as (ra & Hra & _ & ->).
  destruct (Hrows _ _ Hb) as (rb & Hrb & -> & _).
  apply (Hm i); assumption.
Qed.

(** A sync map without the first row has no gap. *)
Lemma rows_from_1_contiguous (gap : Q) (m : list interval) (sm : SyncMap) :
  rows_from 1 m sm -> contiguous_map_after gap m -> contiguous sm.
Proof.
  intros Hrows Hm i a b Ha Hb.
  destruct (Hrows _ _ Ha) as (ra & Hra & _ & ->).
  destruct (Hrows _ _ Hb) as (rb & Hrb & -> & _).
  rewrite (Hm (1 + i)%nat ra rb Hra Hrb).
  destruct (decide ((1 + i)%nat = 0%nat)); [lia | lra].
Qed.

Lemma intervals_of_contiguous (real_anchors : list real_anchor) :
  contiguous_map (intervals_of real_anchors).
Proof.
  intros i a b Ha Hb.
  apply lookup_intervals_of_inv in Ha as (ca & na & _ & Hna & ->).
  apply lookup_intervals_of_inv in Hb as (cb & nb & Hcb & _ & ->).
  simpl. replace cb with na by congruence. reflexivity.
Qed.

(** The text map computed by [_align_text] is contiguous. *)
Lemma align_text_contiguous (wave_map : list (Q * Q)) (synt_anchors : list anchor)
    (m : list interval) :
  _align_text wave_map synt_anchors = Some m -> contiguous_map m.
Proof.
  intros H. apply align_text_inv in H as (ras & lt & _ & _ & ->).
  apply intervals_of_contiguous.
Qed.

Lemma shift_contiguous (head : Q) (m : list interval) :
  contiguous_map m -> contiguous_map (map (shift head) m).
Proof.
  intros Hm i a b Ha Hb. rewrite lookup_map in Ha, Hb.
  destruct (m !! i) as [a0|] eqn:Ea; [|discriminate].
  destruct (m !! S i) as [b0|] eqn:Eb; [|discriminate].
  simpl in Ha, Hb. injection Ha as <-. injection Hb as <-. simpl.
  rewrite (Hm i a0 b0 Ea Eb). reflexivity.
Qed.

Lemma contiguous_map_cons (h : interval) (m : list interval) :
  contiguous_map m ->
  (forall f, m !! 0%nat = Some f -> i_start f == i_end h) ->
  contiguous_map (h :: m).
Proof.
  intros Hm Hf [|i] a b Ha Hb; simpl in Ha, Hb.
  - injection Ha as <-. apply Hf, Hb.
  - apply (Hm i); assumption.
Qed.

Lemma contiguous_map_snoc (m : list interval) (t : interval) :
  contiguous_map m ->
  (forall l, last m = Some l -> i_start t == i_end l) ->
  contiguous_map (m ++ [t]).
Proof.
  intros Hm Hl i a b Ha Hb.
  apply lookup_app_Some in Hb as [Hb | [Hge Hb]].
  - rewrite lookup_app_l in Ha by (apply lookup_lt_Some in Hb; lia).
    apply (Hm i); assumption.
  - apply list_lookup_singleton_Some in Hb as [Hi <-].
    assert (i = pred (length m)) as -> by (apply lookup_lt_Some in Ha;
                                            rewrite length_app in Ha; simpl in Ha; lia).
    rewrite lookup_app_l in Ha by lia.
    apply Hl. rewrite last_lookup. exact Ha.
Qed.

(** In the translated map of a contiguous text map, the first fragment
    starts after the end of the HEAD row by the start of the first interval
    of the text map; the other rows are contiguous. *)
Lemma translate_text_map_gap (self : ExecuteTask)
    (text_map translated : list interval) (real_full_wave_length : Q)
    (first : interval) :
  _translate_text_map self text_map real_full_wave_length = Some translated ->
  contiguous_map text_map ->
  text_map !! 0%nat = Some first ->
  contiguous_map_after (i_start first) translated.
Proof.
  intros Htr Hm Hfirst.
  destruct (translate_text_map_inv _ _ _ _ Htr) as [last_iv Hlast].
  rewrite (translate_text_map_nonempty _ _ _ _ Hlast) in Htr. injection Htr as <-.
  set (head := safe_float (is_audio_file_head_length (configuration (task self))) 0).
  assert (Hrest : contiguous_map
                    (map (shift head) text_map
                     ++ [Interval (i_end last_iv + head) real_full_wave_length None None])).
  { apply contiguous_map_snoc; [apply shift_contiguous, Hm|].
    intros l Hl. change (map (shift head) text_map) with (shift head <$> text_map) in Hl.
    rewrite fmap_last, Hlast in Hl. injection Hl as <-. reflexivity. }
  intros [|i] a b Ha Hb; simpl in Ha, Hb.
  - injection Ha as <-.
    destruct text_map as [|first' text_map']; [discriminate Hlast|].
    simpl in Hfirst, Hb. injection Hfirst as ->. injection Hb as <-. simpl. lra.
  - rewrite (Hrest i a b Ha Hb). destruct (decide (S i = 0%nat)); [lia | lra].
Qed.

(** The translated map of a contiguous text map whose first interval starts
    at 0 is contiguous. *)
Lemma translate_text_map_contiguous (self : ExecuteTask)
    (text_map translated : list interval) (real_full_wave_length : Q)
    (first : interval) :
  _translate_text_map self text_map real_full_wave_length = Some translated ->
  contiguous_map text_map ->
  text_map !! 0%nat = Some first -> i_start first == 0 ->
  contiguous_map translated.
Proof.
  intros Htr Hm Hfirst H0 i a b Ha Hb.
  rewrite (translate_text_map_gap self text_map translated real_full_wave_length
             first Htr Hm Hfirst i a b Ha Hb).
  destruct (decide (i = 0%nat)); lra.
Qed.

(** What the loop over the fragments has read. *)
Lemma fragment_rows_inv (m : list interval) (frags : list TextFragment)
    (rows : list SyncMapFragment) :
  fragment_rows m frags = Some rows ->
  length rows = length frags
  /\ forall k e, rows !! k = Some e ->
       exists f row, frags !! k = Some f /\ m !! S k = Some row
         /\ e = {| text_fragment := f; sm_begin := i_start row; sm_end := i_end row |}.
Proof.
  unfold fragment_rows. intros H. apply mapM_Some_1 in H.
  split.
  - rewrite <- (Forall2_length _ _ _ H). apply length_imap.
  - intros k e He.
    destruct (Forall2_lookup_r _ _ _ _ _ H He) as ([i f] & Hif & Hrow).
    rewrite list_lookup_imap in Hif.
    destruct (frags !! k) as [f'|] eqn:Hf; [|discriminate].
    simpl in Hif. injection Hif as <- <-. simpl in Hrow.
    replace (k + 1)%nat with (S k) in Hrow by lia.
    destruct (m !! S k) as [row|]; [|discriminate].
    simpl in Hrow. injection Hrow as <-. eauto.
Qed.

Lemma fragment_rows_from (m : list interval) (frags : list TextFragment)
    (rows : list SyncMapFragment) :
  fragment_rows m frags = Some rows -> rows_from 1 m rows.
Proof.
  intros H k e He.
  destruct (fragment_rows_inv _ _ _ H) as [_ Hinv].
  destruct (Hinv k e He) as (f & row & _ & Hrow & ->).
  exists row. simpl. auto.
Qed.

(** The entries of the sync map built with the format ADD. *)
Lemma build_sync_map_add (c : TaskConfiguration) (frags : list TextFragment)
    (m : list interval) (sm : SyncMap) :
  os_file_head_tail_format c = Some ADD ->
  length m = (length frags + 2)%nat ->
  build_sync_map c frags m = Some sm ->
  length sm = length m /\ rows_from 0 m sm.
Proof.
  intros Hfmt Hlen. unfold build_sync_map. rewrite Hfmt.
  destruct (m !! 0%nat) as [head|] eqn:Hhead; [|discriminate]. simpl.
  destruct (last m) as [tail|] eqn:Htail; [|discriminate]. simpl.
  destruct (decide (Some ADD = Some STRETCH)) as [|_]; [discriminate|].
  destruct (decide (Some ADD = Some ADD)) as [_|]; [|congruence]. simpl.
  destruct (fragment_rows m frags) as [rows|] eqn:Hrows; [|discriminate]. simpl.
  intros [= <-].
  destruct (fragment_rows_inv _ _ _ Hrows) as [Hlr Hinv].
  split; [simpl; rewrite length_app; simpl; lia|].
  intros [|k] e He; simpl in He.
  - injection He as <-. exists head. simpl. auto.
  - apply lookup_app_Some in He as [He | [Hge He]].
    + destruct (Hinv k e He) as (f & row & _ & Hrow & ->). exists row. simpl. auto.
    + apply list_lookup_singleton_Some in He as [Hk <-].
      exists tail. simpl. split; [|auto].
      rewrite last_lookup in Htail.
      replace (S k) with (pred (length m)) by lia. exact Htail.
Qed.

(** The entries of the sync map built with the format HIDDEN or none. *)
Lemma build_sync_map_hidden (c : TaskConfiguration) (frags : list TextFragment)
    (m : list interval) (sm : SyncMap) :
  os_file_head_tail_format c <> Some ADD ->
  os_file_head_tail_format c <> Some STRETCH ->
  build_sync_map c frags m = Some sm ->
  rows_from 1 m sm.
Proof.
  intros Ha Hs. unfold build_sync_map.
  destruct (m !! 0%nat) as [head|]; [|discriminate]. simpl.
  destruct (last m) as [tail|]; [|discriminate]. simpl.
  destruct (decide (os_file_head_tail_format c = Some STRETCH)); [contradiction|].
  destruct (decide (os_file_head_tail_format c = Some ADD)); [contradiction|]. simpl.
  destruct (fragment_rows m frags) as [rows|] eqn:Hrows; [|discriminate]. simpl.
  intros [= <-]. apply fragment_rows_from with frags, Hrows.
Qed.

(** The entries of the sync map built with the format STRETCH. *)
Lemma build_sync_map_stretch (c : TaskConfiguration) (frags : list TextFragment)
    (m : list interval) (head tail : interval) :
  os_file_head_tail_format c = Some STRETCH ->
  length m = (length frags + 2)%nat ->
  m !! 0%nat = Some head -> last m = Some tail ->
  exists sm,
    build_sync_map c frags m = Some sm
    /\ length sm = length frags
    /\ forall k f row, frags !! k = Some f -> m !! S k = Some row ->
         sm !! k
         = Some {| text_fragment := f;
                   sm_begin := if decide (k = 0%nat) then i_start head else i_start row;
                   sm_end := if decide (S k = length frags) then i_end tail
                             else i_end row |}.
Proof.
  intros Hfmt Hlen Hhead Htail.
  unfold build_sync_map. rewrite Hhead, Htail, Hfmt. simpl.
  destruct (stretch_spec m head tail) as (m' & Hm' & Hlen' & Hlk);
    [lia | assumption.. |].
  destruct (decide (Some STRETCH = Some ADD)) as [|_]; [discriminate|].
  destruct (decide (Some STRETCH = Some STRETCH)) as [_|]; [|congruence].
  rewrite Hm'. simpl.
  destruct (fragment_rows_spec m' frags) as (rows & Hrows & Hlr & Hrk); [lia|].
  rewrite Hrows. simpl.
  exists rows. split; [reflexivity|]. split; [exact Hlr|].
  intros k f row Hf Hrow.
  pose proof (lookup_lt_Some _ _ _ Hf) as Hk.
  pose proof (Hlk (S k) row ltac:(lia) Hrow) as Hm.
  rewrite (Hrk k f _ Hf Hm). simpl.
  repeat f_equal.
  - destruct (decide (S k = 1%nat)), (decide (k = 0%nat)); try lia; reflexivity.
  - destruct (decide (S k = (length m - 2)%nat)),
      (decide (S k = length frags)); try lia; reflexivity.
Qed.

(** The sync map built from an adjusted map that is contiguous but for a gap
    after its HEAD row: with ADD it has the same gap, otherwise it has none;
    with ADD or STRETCH it starts where the adjusted map starts and ends
    where it ends. *)
Lemma build_sync_map_gap (c : TaskConfiguration) (frags : list TextFragment)
    (m : list interval) (sm : SyncMap) (gap lo hi : Q) :
  frags <> [] ->
  length m = (length frags + 2)%nat ->
  contiguous_map_after gap m ->
  (forall a, m !! 0%nat = Some a -> i_start a == lo) ->
  (forall b, last m = Some b -> i_end b == hi) ->
  build_sync_map c frags m = Some sm ->
  (os_file_head_tail_format c = Some ADD ->
   contiguous_after gap sm /\ spans sm lo hi)
  /\ (os_file_head_tail_format c <> Some ADD ->
      contiguous sm /\ (os_file_head_tail_format c = Some STRETCH -> spans sm lo hi)).
Proof.
  intros Hne Hlen Hm Hlo Hhi Hb.
  assert (Hn : (0 < length frags)%nat) by (destruct frags; [congruence | simpl; lia]).
  split.
  { intros Ha.
    destruct (build_sync_map_add c frags m sm Ha Hlen Hb) as [Hl Hrows].
    split; [eapply rows_from_0_contiguous; eassumption|].
    destruct (lookup_lt_is_Some_2 sm 0%nat) as [e0 He0]; [lia|].
    destruct (lookup_lt_is_Some_2 sm (pred (length sm))) as [e1 He1]; [lia|].
    exists e0, e1. split; [exact He0|]. split; [rewrite last_lookup; exact He1|].
    destruct (Hrows _ _ He0) as (r0 & Hr0 & -> & _).
    destruct (Hrows _ _ He1) as (r1 & Hr1 & _ & ->).
    split; [apply Hlo, Hr0|]. apply Hhi. rewrite last_lookup, <- Hl. exact Hr1. }
  intros Ha.
  destruct (decide (os_file_head_tail_format c = Some STRETCH)) as [Hs|Hs].
  2:{ split; [|intros ?; contradiction].
      eapply rows_from_1_contiguous; [|exact Hm].
      eapply build_sync_map_hidden; eassumption. }
  destruct (lookup_lt_is_Some_2 m 0%nat) as [head Hhead]; [lia|].
  destruct (lookup_lt_is_Some_2 m (pred (length m))) as [tail Htail]; [lia|].
  rewrite <- last_lookup in Htail.
  destruct (build_sync_map_stretch c frags m head tail Hs Hlen Hhead Htail)
    as (sm' & Hb' & Hl & Hk).
  assert (sm' = sm) as -> by congruence.
  assert (Hrow : forall k, (k < length frags)%nat ->
            exists f row, frags !! k = Some f /\ m !! S k = Some row).
  { intros k Hk'.
    destruct (lookup_lt_is_Some_2 frags k Hk') as [f Hf].
    destruct (lookup_lt_is_Some_2 m (S k)) as [row Hr]; [lia|]. eauto. }
  split.
  - intros i a b Hia Hib.
    pose proof (lookup_lt_Some _ _ _ Hib) as Hi. rewrite Hl in Hi.
    destruct (Hrow i ltac:(lia)) as (f & row & Hf & Hr).
    destruct (Hrow (S i) Hi) as (f' & row' & Hf' & Hr').
    rewrite (Hk _ _ _ Hf Hr) in Hia. rewrite (Hk _ _ _ Hf' Hr') in Hib.
    injection Hia as <-. injection Hib as <-. simpl.
    destruct (decide (S i = 0%nat)); [lia|].
    destruct (decide (S i = length frags)); [lia|].
    rewrite (Hm (S i) row row' Hr Hr').
    destruct (decide (S i = 0%nat)); [lia | lra].
  - intros _.
    destruct (Hrow 0%nat Hn) as (f & row & Hf & Hr).
    destruct (Hrow (pred (length frags)) ltac:(lia)) as (f' & row' & Hf' & Hr').
    eexists _, _. split; [exact (Hk _ _ _ Hf Hr)|].
    split; [rewrite last_lookup, Hl; exact (Hk _ _ _ Hf' Hr')|]. simpl.
    destruct (decide (0%nat = 0%nat)); [|lia].
    destruct (decide (S (pred (length frags)) = length frags)); [|lia].
    split; [apply Hlo, Hhead | apply Hhi, Htail].
Qed.

(** [_adjust_boundaries] keeps the contiguity and the two ends of the map,
    provided the adjuster it may call does. *)
Lemma adjust_boundaries_contiguous (ext : Externals) (self : ExecuteTask)
    (translated adjusted : list interval) (mf : mfcc) (L : Q) (w w7 : World)
    (lo hi : Q) :
  _adjust_boundaries ext self translated mf L w = (Some adjusted, w7) ->
  adjuster_preserves_coverage ext (configuration (task self)) ->
  translated <> [] ->
  contiguous_map translated ->
  (forall a, translated !! 0%nat = Some a -> i_start a == lo) ->
  (forall b, last translated = Some b -> i_end b == hi) ->
  contiguous_map adjusted
  /\ (forall a, adjusted !! 0%nat = Some a -> i_start a == lo)
  /\ (forall b, last adjusted = Some b -> i_end b == hi).
Proof.
  unfold _adjust_boundaries, adjuster_preserves_coverage.
  intros Ha Hp Hne Hm Hlo Hhi.
  destruct (lookup_lt_is_Some_2 translated 0%nat) as [a0 Ha0].
  { destruct translated; [congruence | simpl; lia]. }
  assert (exists b0, last translated = Some b0) as [b0 Hb0].
  { destruct (last translated) eqn:E; [eauto|]. apply last_None in E. contradiction. }
  destruct (adjust_boundary_algorithm (configuration (task self))) as [algo|].
  2:{ injection Ha as <- _. split; [|split]; assumption. }
  destruct algo; try (injection Ha as <- _; split; [|split]; assumption);
    (destruct (ext_compute_vad ext mf L) as [vad|]; [|discriminate];
     injection Ha as <- _;
     destruct (Hp vad translated Hm) as (Hc & Hf & Hl);
     split; [exact Hc|]; split;
     [ intros a Ha'; rewrite (Hf a0 a Ha0 Ha'); apply Hlo, Ha0
     | intros b Hb'; rewrite (Hl b0 b Hb0 Hb'); apply Hhi, Hb0 ]).
Qed.

(** * Main results *)

(** C1: [execute] always returns.  When it returns [True], every stage
    succeeded and [task.sync_map] is the sync map that [_create_syncmap]
    built from the adjusted map; when it returns [False], a test or a stage
    failed and [task.sync_map] is what it was before the call. *)
Theorem execute_sync_map (ext : Externals) (self : ExecuteTask) (w : World) :
  exists (r : bool) (self' : ExecuteTask) (w' : World),
    execute ext self w = (Returns r, self', w')
    /\ if r
       then exists sync_map_ adjusted tf,
              step0_succeeded ext (set_cleanup_info self []) w self'
              /\ text_file (task self') = Some tf
              /\ length adjusted = (length (fragments tf) + 2)%nat
              /\ build_sync_map (configuration (task self')) (fragments tf) adjusted
                 = Some sync_map_
              /\ sync_map (task self') = Some sync_map_
       else sync_map (task self') = sync_map (task self).
Proof.
  destruct (execute_cases ext self w) as [[_ ->] | [Hreach ->]].
  { exists false, self, w. split; reflexivity. }
  apply reaches_step0_inv in Hreach as (a & tf & _ & _ & Htf & _).
  destruct (execute_from_step0_spec ext (set_cleanup_info self []) w)
    as (r & self' & w' & Heq & _ & _ & _ & _ & _ & Hr).
  { simpl. rewrite Htf. eauto. }
  { reflexivity. }
  exists r, self', w'. split; [exact Heq|].
  destruct r; [|exact Hr].
  pose proof Hr as Hr'.
  destruct Hr' as (h0 & p0 & w0 & mf & L & self2 & hs & ps & sa & w3 & w7
                   & _ & _ & _ & _ & Hrun).
  destruct Hrun as (wave_map & anchors & text_map & translated & adjusted & tf'
                    & sync_map_ & _ & _ & _ & _ & _ & Htf' & Hlen & Hb & Htask).
  exists sync_map_, adjusted, tf'.
  split; [exact Hr|]. rewrite Htask. simpl.
  repeat split; assumption.
Qed.

(** Both outcomes of [execute] occur: a run in which every stage succeeds,
    and a run in which the aligner fails. *)
Example execute_returns_true :
  (execute (example_externals [(0, 0); (2, 1)])
     (example_self (example_configuration (Some ADD))) example_world).1
  = (Returns true,
     set_task (example_self (example_configuration (Some ADD)))
       (set_sync_map (example_task (example_configuration (Some ADD)))
          [ {| text_fragment := {| identifier := "HEAD"; language := "en";
                                   lines := [EmptyString] |};
               sm_begin := 0; sm_end := 0 |};
            {| text_fragment := {| identifier := "f1"; language := "en";
                                   lines := ["a"%string] |};
               sm_begin := 0; sm_end := 2 |};
            {| text_fragment := {| identifier := "TAIL"; language := "en";
                                   lines := [EmptyString] |};
               sm_begin := 2; sm_end := 3 |} ])).
Proof. vm_compute. reflexivity. Qed.

Example execute_returns_false :
  (execute (example_externals []) (example_self (example_configuration (Some ADD)))
     example_world).1
  = (Returns false, example_self (example_configuration (Some ADD))).
Proof. vm_compute. reflexivity. Qed.

(** C2, as amended: for every wave map with at least one row and every anchor
    list, [_align_text] succeeds; anchor [k] is projected on
    [real_times[index]], [index] being the smallest index that minimises
    [|synt_times[index] - t_synth|]; the projected times are followed by the
    last real time of the wave map; the interval list has one interval per
    anchor, and interval [k] carries the id and text of anchor [k] and spans
    from the [k]-th of these times to the next one. *)
Theorem align_text_projects (wave_map : list (Q * Q)) (synt_anchors : list anchor) :
  wave_map <> [] ->
  exists (m : list interval) (times : list Q),
    _align_text wave_map synt_anchors = Some m
    /\ length m = length synt_anchors
    /\ length times = S (length synt_anchors)
    /\ times !! length synt_anchors = last (map fst wave_map)
    /\ forall k a, synt_anchors !! k = Some a ->
         exists index start end_,
           first_argmin (abs_diff (map snd wave_map) (a_time a)) index
           /\ map fst wave_map !! index = Some start
           /\ times !! k = Some start
           /\ times !! S k = Some end_
           /\ m !! k = Some (Interval start end_ (Some (a_id a)) (Some (a_text a))).
Proof.
  intros Hne.
  destruct (align_text_Some wave_map synt_anchors Hne)
    as (real_anchors & last_time & Hall & Hlast & Heq).
  pose proof (Forall2_length _ _ _ Hall) as Hlen.
  set (ras := real_anchors ++ [RealAnchor last_time None None]) in *.
  assert (Hras : length ras = S (length synt_anchors)).
  { unfold ras. rewrite length_app. simpl. lia. }
  exists (intervals_of ras), (map ra_time ras).
  split; [exact Heq|]. split; [rewrite length_intervals_of; lia|].
  split; [rewrite length_map; exact Hras|]. split.
  - rewrite lookup_map. unfold ras.
    rewrite lookup_app_r by lia. rewrite Hlen, Nat.sub_diag. simpl.
    symmetry. exact Hlast.
  - intros k a Ha.
    destruct (Forall2_lookup_l _ _ _ _ _ Hall Ha) as (ra & Hra & Hp).
    apply project_anchor_inv in Hp as (index & start & Harg & Hstart & ->).
    destruct (lookup_lt_is_Some_2 ras (S k)) as [nxt Hnxt].
    { apply lookup_lt_Some in Ha. lia. }
    assert (Hcur : ras !! k = Some (RealAnchor start (Some (a_id a)) (Some (a_text a)))).
    { unfold ras. apply lookup_app_l_Some, Hra. }
    exists index, start, (ra_time nxt).
    split; [exact Harg|]. split; [exact Hstart|].
    rewrite !lookup_map, Hcur, Hnxt. simpl.
    split; [reflexivity|]. split; [reflexivity|].
    rewrite (lookup_intervals_of ras k _ nxt Hcur Hnxt). reflexivity.
Qed.

Lemma align_text_projects_witness :
  [(0, 0); (1, 1); (2, 2)] <> []
  /\ exists (m : list interval) (times : list Q),
       _align_text [(0, 0); (1, 1); (2, 2)] [Anchor 0 "f1" "a"; Anchor (3#2) "f2" "b"]
       = Some m
       /\ length m = 2%nat
       /\ length times = 3%nat
       /\ times !! 2%nat = Some 2
       /\ forall k a, [Anchor 0 "f1" "a"; Anchor (3#2) "f2" "b"] !! k = Some a ->
            exists index start end_,
              first_argmin (abs_diff [0; 1; 2] (a_time a)) index
              /\ [0; 1; 2] !! index = Some start
              /\ times !! k = Some start
              /\ times !! S k = Some end_
              /\ m !! k = Some (Interval start end_ (Some (a_id a)) (Some (a_text a))).
Proof.
  split; [discriminate|].
  apply (align_text_projects [(0, 0); (1, 1); (2, 2)]
           [Anchor 0 "f1" "a"; Anchor (3#2) "f2" "b"]).
  discriminate.
Defined.

(** C2, as stated, fails on the empty wave map: [argmin] raises on the empty
    array and [_align_text] returns [(False, None)]. *)
Lemma align_text_empty_wave_map :
  ~ exists m, _align_text [] [Anchor 0 "f1" "a"] = Some m /\ length m = 1%nat.
Proof. intros (m & H & _). vm_compute in H. discriminate. Qed.




(** C4: for every non-empty interval map, every configured head length and
    every full audio length [L], [_translate_text_map] returns the rows of
    the map with start and end shifted by the head length [h], preceded by
    the row [[0, h]] without fragment and followed by the row
    [[last shifted end, L]] without fragment; on the empty interval map it
    fails. *)
Theorem translate_text_map_spec (self : ExecuteTask) (text_map : list interval)
    (real_full_wave_length : Q) :
  text_map <> [] ->
  _translate_text_map self [] real_full_wave_length = None
  /\ exists last_iv,
       last text_map = Some last_iv
       /\ _translate_text_map self text_map real_full_wave_length
          = Some ([Interval 0 (safe_float (is_audio_file_head_length
                                             (configuration (task self))) 0) None None]
                  ++ map (shift (safe_float (is_audio_file_head_length
                                               (configuration (task self))) 0)) text_map
                  ++ [Interval (i_end last_iv
                                + safe_float (is_audio_file_head_length
                                                (configuration (task self))) 0)
                               real_full_wave_length None None]).
Proof.
  intros Hne. split; [reflexivity|].
  destruct (last text_map) as [last_iv|] eqn:Hlast.
  - exists last_iv. split; [reflexivity|].
    apply translate_text_map_nonempty, Hlast.
  - apply last_None in Hlast. contradiction.
Qed.

Lemma translate_text_map_spec_witness :
  [Interval 1 2 (Some "f1") (Some "a")] <> []
  /\ _translate_text_map (example_self (example_configuration (Some ADD))) [] 3 = None
  /\ exists last_iv,
       last [Interval 1 2 (Some "f1") (Some "a")] = Some last_iv
       /\ _translate_text_map (example_self (example_configuration (Some ADD)))
            [Interval 1 2 (Some "f1") (Some "a")] 3
          = Some ([Interval 0 0 None None]
                  ++ map (shift 0) [Interval 1 2 (Some "f1") (Some "a")]
                  ++ [Interval (i_end last_iv + 0) 3 None None]).
Proof.
  split; [discriminate|].
  apply (translate_text_map_spec (example_self (example_configuration (Some ADD)))
           [Interval 1 2 (Some "f1") (Some "a")] 3).
  discriminate.
Defined.




(** C6: an adjusted map accepted by [_create_syncmap], that is, with two rows
    more than the text file has fragments, gives a sync map with
    [len(fragments) + 2] entries when the head/tail format is ADD and with
    [len(fragments)] entries otherwise (STRETCH, HIDDEN or unset);
    [_create_syncmap] fails, leaving the task as it was, when the adjusted
    map has another length. *)
Theorem create_syncmap_fragment_count (self : ExecuteTask)
    (adjusted_map : list interval) (tf : TextFile) :
  text_file (task self) = Some tf ->
  (length adjusted_map = (length (fragments tf) + 2)%nat ->
   exists sync_map,
     _create_syncmap self adjusted_map
     = (Returns true, set_task self (set_sync_map (task self) sync_map))
     /\ length sync_map
        = match os_file_head_tail_format (configuration (task self)) with
          | Some ADD => (length (fragments tf) + 2)%nat
          | Some STRETCH | Some HIDDEN | None => length (fragments tf)
          end)
  /\ (length adjusted_map <> (length (fragments tf) + 2)%nat ->
      _create_syncmap self adjusted_map = (Returns false, self)).
Proof.
  intros Htf. unfold _create_syncmap. rewrite Htf. split.
  - intros Hlen.
    destruct (decide (length adjusted_map ≠ (length (fragments tf) + 2)%nat));
      [contradiction|].
    destruct (build_sync_map_length (configuration (task self)) (fragments tf)
                adjusted_map Hlen) as (sync_map & Hb & Hl).
    rewrite Hb. exists sync_map. split; [reflexivity|].
    rewrite Hl.
    destruct (os_file_head_tail_format (configuration (task self))) as [[]|];
      reflexivity.
  - intros Hlen.
    destruct (decide (length adjusted_map ≠ (length (fragments tf) + 2)%nat));
      [reflexivity | contradiction].
Qed.

Lemma create_syncmap_fragment_count_witness :
  text_file (task (example_self (example_configuration (Some ADD))))
  = Some {| fragments := [ {| identifier := "f1"; language := "en";
                              lines := ["a"%string] |} ] |}
  /\ length example_adjusted_map = 3%nat
  /\ exists sync_map_,
       _create_syncmap (example_self (example_configuration (Some ADD)))
         example_adjusted_map
       = (Returns true,
          set_task (example_self (example_configuration (Some ADD)))
            (set_sync_map (task (example_self (example_configuration (Some ADD))))
               sync_map_))
       /\ length sync_map_ = 3%nat.
Proof.
  split; [reflexivity|]. split; [reflexivity|].
  apply (proj1 (create_syncmap_fragment_count
                  (example_self (example_configuration (Some ADD)))
                  example_adjusted_map _ eq_refl)).
  reflexivity.
Defined.

(** C7: with the head/tail format STRETCH, the sync map built from an
    adjusted map has one entry per text fragment and none for HEAD and TAIL;
    the first fragment starts where the HEAD row starts, the last fragment
    ends where the TAIL row ends, and every other start and end is the one
    of the fragment's row of the adjusted map.  When the adjusted map is a
    translated map, these two times are 0 and the full length of the
    audio. *)
Theorem create_syncmap_stretch (self : ExecuteTask) (adjusted_map : list interval)
    (tf : TextFile) (head tail : interval) :
  text_file (task self) = Some tf ->
  os_file_head_tail_format (configuration (task self)) = Some STRETCH ->
  length adjusted_map = (length (fragments tf) + 2)%nat ->
  adjusted_map !! 0%nat = Some head ->
  last adjusted_map = Some tail ->
  (exists sync_map,
     _create_syncmap self adjusted_map
     = (Returns true, set_task self (set_sync_map (task self) sync_map))
     /\ length sync_map = length (fragments tf)
     /\ forall k f row,
          fragments tf !! k = Some f -> adjusted_map !! S k = Some row ->
          sync_map !! k
          = Some {| text_fragment := f;
                    sm_begin := if decide (k = 0%nat) then i_start head
                                else i_start row;
                    sm_end := if decide (S k = length (fragments tf)) then i_end tail
                              else i_end row |})
  /\ (forall text_map real_full_wave_length,
        _translate_text_map self text_map real_full_wave_length = Some adjusted_map ->
        i_start head = 0 /\ i_end tail = real_full_wave_length).
Proof.
  intros Htf Hfmt Hlen Hhead Htail. split.
  2:{ intros text_map L Htr. eapply translate_text_map_head_tail; eassumption. }
  unfold _create_syncmap. rewrite Htf.
  destruct (decide (length adjusted_map ≠ (length (fragments tf) + 2)%nat));
    [contradiction|].
  destruct (build_sync_map_stretch (configuration (task self)) (fragments tf)
              adjusted_map head tail Hfmt Hlen Hhead Htail) as (sm & Hb & Hl & Hk).
  rewrite Hb. exists sm. split; [reflexivity|]. split; [exact Hl | exact Hk].
Qed.

Lemma create_syncmap_stretch_witness :
  text_file (task (example_self (example_configuration (Some STRETCH))))
  = Some {| fragments := [ {| identifier := "f1"; language := "en";
                              lines := ["a"%string] |} ] |}
  /\ os_file_head_tail_format
       (configuration (task (example_self (example_configuration (Some STRETCH)))))
     = Some STRETCH
  /\ length example_adjusted_map = 3%nat
  /\ example_adjusted_map !! 0%nat = Some (Interval 0 (3#10) None None)
  /\ last example_adjusted_map = Some (Interval (98#10) 10 None None)
  /\ exists sync_map_,
       _create_syncmap (example_self (example_configuration (Some STRETCH)))
         example_adjusted_map
       = (Returns true,
          set_task (example_self (example_configuration (Some STRETCH)))
            (set_sync_map (task (example_self (example_configuration (Some STRETCH))))
               sync_map_))
       /\ length sync_map_ = 1%nat
       /\ sync_map_ !! 0%nat
          = Some {| text_fragment := {| identifier := "f1"; language := "en";
                                        lines := ["a"%string] |};
                    sm_begin := 0; sm_end := 10 |}.
Proof.
  split; [reflexivity|]. split; [reflexivity|]. split; [reflexivity|].
  split; [reflexivity|]. split; [reflexivity|].
  destruct (proj1 (create_syncmap_stretch
                     (example_self (example_configuration (Some STRETCH)))
                     example_adjusted_map _
                     (Interval 0 (3#10) None None) (Interval (98#10) 10 None None)
                     eq_refl eq_refl eq_refl eq_refl eq_refl))
    as (sync_map_ & Hc & Hl & Hk).
  exists sync_map_. split; [exact Hc|]. split; [exact Hl|].
  exact (Hk 0%nat _ (Interval (3#10) (98#10) (Some "f1") (Some "a")) eq_refl eq_refl).
Defined.

(** C8: when the configured adjust-boundary algorithm is AUTO, or when none
    is configured, [_adjust_boundaries] succeeds and returns the interval map
    it was given, and the voice activity detector is not run. *)
Theorem adjust_boundaries_auto_identity (ext : Externals) (self : ExecuteTask)
    (text_map : list interval) (real_wave_full_mfcc : mfcc) (real_wave_length : Q)
    (w : World) :
  adjust_boundary_algorithm (configuration (task self)) = None
  \/ adjust_boundary_algorithm (configuration (task self)) = Some AUTO ->
  _adjust_boundaries ext self text_map real_wave_full_mfcc real_wave_length w
  = (Some text_map, w)
  /\ vad_runs (_adjust_boundaries ext self text_map real_wave_full_mfcc
                 real_wave_length w).2 = vad_runs w.
Proof.
  intros H.
  rewrite (adjust_boundaries_noop ext self text_map real_wave_full_mfcc
             real_wave_length w H).
  split; reflexivity.
Qed.

Lemma adjust_boundaries_auto_identity_witness :
  (adjust_boundary_algorithm
     (configuration (task (example_self (example_configuration (Some ADD))))) = None
   \/ adjust_boundary_algorithm
        (configuration (task (example_self (example_configuration (Some ADD)))))
      = Some AUTO)
  /\ _adjust_boundaries (example_externals []) (example_self (example_configuration (Some ADD)))
       example_adjusted_map [] 10 example_world
     = (Some example_adjusted_map, example_world)
  /\ vad_runs (_adjust_boundaries (example_externals [])
                 (example_self (example_configuration (Some ADD)))
                 example_adjusted_map [] 10 example_world).2
     = vad_runs example_world.
Proof.
  split; [left; reflexivity|].
  apply (adjust_boundaries_auto_identity (example_externals [])
           (example_self (example_configuration (Some ADD)))
           example_adjusted_map [] 10 example_world).
  left. reflexivity.
Defined.

(** C9: when [execute] passes its tests and reaches STEP 0, then, however it
    ends, the registry [cleanup_info] is empty when it returns, the handler
    and the path of the converted real wave and, if STEP 3 was reached, those
    of the synthesized wave are closed and removed, and no handler or file
    that the run created is left. *)
Theorem execute_cleans_up (ext : Externals) (self : ExecuteTask) (w : World) :
  reaches_step0 (task self) = true ->
  cleanup_info (execute ext self w).1.2 = []
  /\ open_handlers (execute ext self w).2 ⊆ open_handlers w
  /\ files (execute ext self w).2 ⊆ files w
  /\ (forall h p, ext_mkstemp_real ext = Some (h, p) ->
        (h ∉ open_handlers (execute ext self w).2) /\ (p ∉ files (execute ext self w).2))
  /\ (forall h p, reaches_step3 ext (set_cleanup_info self []) w = true ->
        ext_mkstemp_synt ext = Some (h, p) ->
        (h ∉ open_handlers (execute ext self w).2) /\ (p ∉ files (execute ext self w).2)).
Proof.
  intros Hreach.
  destruct (execute_cases ext self w) as [[Hno _] | [_ ->]]; [congruence|].
  apply reaches_step0_inv in Hreach as (a & tf & _ & _ & Htf & _).
  destruct (execute_from_step0_spec ext (set_cleanup_info self []) w)
    as (r & self' & w' & -> & Hci & Hh & Hf & Hreal & Hsynt & _).
  { simpl. rewrite Htf. eauto. }
  { reflexivity. }
  simpl. split; [exact Hci|]. split; [exact Hh|]. split; [exact Hf|].
  split; [exact Hreal | exact Hsynt].
Qed.

Lemma execute_cleans_up_witness :
  reaches_step0 (task (example_self (example_configuration (Some ADD)))) = true
  /\ cleanup_info
       (execute (example_externals [(0, 0); (2, 1)])
          (example_self (example_configuration (Some ADD))) example_world).1.2 = []
  /\ open_handlers
       (execute (example_externals [(0, 0); (2, 1)])
          (example_self (example_configuration (Some ADD))) example_world).2
     ⊆ open_handlers example_world
  /\ files
       (execute (example_externals [(0, 0); (2, 1)])
          (example_self (example_configuration (Some ADD))) example_world).2
     ⊆ files example_world.
Proof.
  split; [vm_compute; reflexivity|].
  destruct (execute_cleans_up (example_externals [(0, 0); (2, 1)])
              (example_self (example_configuration (Some ADD))) example_world)
    as (H1 & H2 & H3 & _).
  - vm_compute. reflexivity.
  - split; [exact H1|]. split; [exact H2 | exact H3].
Defined.

(** C10: when neither a head length nor a process length is configured and
    at least one of the four detect parameters is set, [_cut_head_tail], once
    the audio is loaded and head and tail are detected, sets
    [is_audio_file_head_length] to [max(0, head)] and
    [is_audio_file_process_length] to [max(0, audio_length - tail - head)] in
    the configuration of the task and changes no other field; a run of
    [execute] that comes to STEP 2 returns with the configuration so
    changed. *)
Theorem cut_head_tail_sets_configuration (ext : Externals) (self : ExecuteTask)
    (audio_file_path : option string) (audio_length_ head tail : Q) :
  is_audio_file_head_length (configuration (task self)) = None ->
  is_audio_file_process_length (configuration (task self)) = None ->
  detect (configuration (task self)) = true ->
  ext_load_data ext audio_file_path = Some audio_length_ ->
  detected_head ext (configuration (task self)) = Some head ->
  detected_tail ext (configuration (task self)) = Some tail ->
  (is_audio_file_head_length
     (configuration (task (_cut_head_tail ext self audio_file_path).2))
   = Some (Qmax 0 head)
   /\ is_audio_file_process_length
        (configuration (task (_cut_head_tail ext self audio_file_path).2))
      = Some (Qmax 0 (audio_length_ - tail - head))
   /\ same_but_head_process (configuration (task self))
        (configuration (task (_cut_head_tail ext self audio_file_path).2)))
  /\ (forall (w w0 : World) (h0 : option Z),
        reaches_step0 (task self) = true ->
        _convert ext (set_cleanup_info self []) w = ((true, h0, audio_file_path), w0) ->
        is_Some (_extract_mfcc ext audio_file_path) ->
        configuration (task (execute ext self w).1.2)
        = set_head_process (configuration (task self))
            (Qmax 0 head) (Qmax 0 (audio_length_ - tail - head))).
Proof.
  intros Hhl Hpl Hd Hl Hh Ht.
  assert (He : explicit (configuration (task self)) = false).
  { unfold explicit. rewrite Hhl, Hpl. reflexivity. }
  split.
  - rewrite (cut_head_tail_detect ext self audio_file_path audio_length_ head tail)
      by assumption.
    split; [reflexivity|]. split; [reflexivity|].
    unfold same_but_head_process. simpl. repeat split; reflexivity.
  - intros w w0 h0 Hreach Hc Hx.
    rewrite (execute_configuration ext self w w0 h0 audio_file_path Hreach Hc Hx).
    exact (cut_head_tail_detect ext
             (register (set_cleanup_info self []) h0 audio_file_path)
             audio_file_path audio_length_ head tail He Hd Hl Hh Ht).
Qed.

Lemma cut_head_tail_sets_configuration_witness :
  is_audio_file_head_length example_detect_configuration = None
  /\ is_audio_file_process_length example_detect_configuration = None
  /\ detect example_detect_configuration = true
  /\ ext_load_data (example_externals [(0, 0); (2, 1)]) (Some "/tmp/real.wav"%string)
     = Some 3
  /\ detected_head (example_externals [(0, 0); (2, 1)]) example_detect_configuration
     = Some (1#2)
  /\ detected_tail (example_externals [(0, 0); (2, 1)]) example_detect_configuration
     = Some 0
  /\ is_audio_file_head_length
       (configuration
          (task (_cut_head_tail (example_externals [(0, 0); (2, 1)])
                   (example_self example_detect_configuration)
                   (Some "/tmp/real.wav"%string)).2))
     = Some (Qmax 0 (1#2))
  /\ configuration
       (task (execute (example_externals [(0, 0); (2, 1)])
                (example_self example_detect_configuration) example_world).1.2)
     = set_head_process example_detect_configuration
         (Qmax 0 (1#2)) (Qmax 0 (3 - 0 - (1#2))).
Proof.
  split; [reflexivity|]. split; [reflexivity|]. split; [reflexivity|].
  split; [reflexivity|]. split; [reflexivity|]. split; [reflexivity|].
  destruct (cut_head_tail_sets_configuration (example_externals [(0, 0); (2, 1)])
              (example_self example_detect_configuration)
              (Some "/tmp/real.wav"%string) 3 (1#2) 0
              eq_refl eq_refl eq_refl eq_refl eq_refl eq_refl)
    as [(H1 & _ & _) H2].
  split; [exact H1|].
  apply (H2 example_world
            (_convert (example_externals [(0, 0); (2, 1)])
               (set_cleanup_info (example_self example_detect_configuration) [])
               example_world).2
            (Some 3%Z)).
  - vm_compute. reflexivity.
  - reflexivity.
  - eexists. reflexivity.
Defined.

(** The run above returns with another configuration than it was given. *)
Example execute_changes_configuration :
  (execute (example_externals [(0, 0); (2, 1)])
     (example_self example_detect_configuration) example_world).1.1 = Returns true
  /\ configuration
       (task (execute (example_externals [(0, 0); (2, 1)])
                (example_self example_detect_configuration) example_world).1.2)
     <> example_detect_configuration.
Proof.
  split; [vm_compute; reflexivity|].
  vm_compute. discriminate.
Qed.

(** * Further properties of [_align_text] *)

(** X1: [_align_text] fails exactly on the empty wave map, whatever the
    anchors; on a wave map with at least one row and no anchor it returns the
    empty interval list. *)
Theorem align_text_fails_iff (wave_map : list (Q * Q)) (synt_anchors : list anchor) :
  (_align_text wave_map synt_anchors = None <-> wave_map = [])
  /\ (wave_map <> [] -> _align_text wave_map [] = Some []).
Proof.
  split; [split|].
  - intros Hnone. destruct wave_map as [|row wave_map]; [reflexivity|].
    destruct (align_text_Some (row :: wave_map) synt_anchors) as (? & ? & _ & _ & H);
      [discriminate | congruence].
  - intros ->. unfold _align_text. simpl.
    destruct (mapM (project_anchor [] []) synt_anchors); reflexivity.
  - intros Hne.
    destruct (align_text_Some wave_map [] Hne) as (ras & lt & Hall & _ & ->).
    apply Forall2_nil_inv_l in Hall as ->. reflexivity.
Qed.

Lemma align_text_fails_iff_witness :
  [(0, 0); (1, 1)] <> [] /\ _align_text [(0, 0); (1, 1)] [] = Some [].
Proof.
  split; [discriminate|].
  apply (proj2 (align_text_fails_iff [(0, 0); (1, 1)] [])). discriminate.
Defined.

(** X2: whatever the wave map and the anchors, the interval list returned by
    [_align_text] is contiguous, every start and every end in it is a real
    time of the wave map, and the last interval ends at the last real time
    of the wave map. *)
Theorem align_text_times_of_wave_map (wave_map : list (Q * Q))
    (synt_anchors : list anchor) (m : list interval) :
  _align_text wave_map synt_anchors = Some m ->
  contiguous_map m
  /\ (forall k iv, m !! k = Some iv ->
        i_start iv ∈ map fst wave_map /\ i_end iv ∈ map fst wave_map)
  /\ (forall iv, last m = Some iv -> last (map fst wave_map) = Some (i_end iv)).
Proof.
  intros H. split; [eapply align_text_contiguous, H|].
  apply align_text_inv in H as (ras & last_time & Hall & Hlast & ->).
  assert (Htimes : forall k ra,
            (ras ++ [RealAnchor last_time None None]) !! k = Some ra ->
            ra_time ra ∈ map fst wave_map).
  { intros k ra Hk. apply lookup_app_Some in Hk as [Hk | [_ Hk]].
    - destruct (Forall2_lookup_r _ _ _ _ _ Hall Hk) as (a & _ & Hp).
      apply project_anchor_inv in Hp as (index & rt & _ & Hrt & ->). simpl.
      apply list_elem_of_lookup. eauto.
    - apply list_lookup_singleton_Some in Hk as [_ <-]. simpl.
      rewrite last_lookup in Hlast. apply list_elem_of_lookup. eauto. }
  split.
  - intros k iv Hk.
    apply lookup_intervals_of_inv in Hk as (cur & nxt & Hc & Hn & ->). simpl.
    split; eapply Htimes; eassumption.
  - intros iv Hiv. rewrite last_lookup in Hiv.
    pose proof (lookup_lt_Some _ _ _ Hiv) as Hlt.
    rewrite length_intervals_of, length_app in Hlt. simpl in Hlt.
    rewrite length_intervals_of, length_app in Hiv. simpl in Hiv.
    apply lookup_intervals_of_inv in Hiv as (cur & nxt & _ & Hn & ->). simpl.
    rewrite lookup_app_r in Hn by lia.
    replace (S (pred (length ras + 1 - 1)) - length ras)%nat with 0%nat in Hn by lia.
    injection Hn as <-. exact Hlast.
Qed.

Lemma align_text_times_of_wave_map_witness :
  _align_text [(0, 0); (1, 1); (2, 2)] [Anchor 1 "f1" "a"]
  = Some [Interval 1 2 (Some "f1") (Some "a")]
  /\ contiguous_map [Interval 1 2 (Some "f1") (Some "a")]
  /\ (forall iv, last [Interval 1 2 (Some "f1") (Some "a")] = Some iv ->
        last (map fst [(0, 0); (1, 1); (2, 2)]) = Some (i_end iv)).
Proof.
  assert (H : _align_text [(0, 0); (1, 1); (2, 2)] [Anchor 1 "f1" "a"]
              = Some [Interval 1 2 (Some "f1") (Some "a")])
    by (vm_compute; reflexivity).
  split; [exact H|].
  destruct (align_text_times_of_wave_map _ _ _ H) as (Hc & _ & Hl).
  split; [exact Hc | exact Hl].
Defined.

(** X3: an anchor whose time is a synthetic time of the wave map is
    projected on the first row that has this synthetic time: its interval
    starts at the real time of that row. *)
Theorem align_text_exact_hit (wave_map : list (Q * Q)) (synt_anchors : list anchor)
    (m : list interval) (k j : nat) (a : anchor) (real_j synt_j : Q) :
  _align_text wave_map synt_anchors = Some m ->
  synt_anchors !! k = Some a ->
  wave_map !! j = Some (real_j, synt_j) ->
  synt_j == a_time a ->
  exists i real_i synt_i iv,
    (i <= j)%nat
    /\ wave_map !! i = Some (real_i, synt_i)
    /\ synt_i == a_time a
    /\ (forall i' row, (i' < i)%nat -> wave_map !! i' = Some row ->
          ~ row.2 == a_time a)
    /\ m !! k = Some iv
    /\ i_start iv = real_i.
Proof.
  intros H Ha Hj Heq.
  apply align_text_inv in H as (ras & last_time & Hall & _ & ->).
  destruct (Forall2_lookup_l _ _ _ _ _ Hall Ha) as (ra & Hra & Hp).
  apply project_anchor_inv in Hp as (i & real_i & Harg & Hri & ->).
  destruct Harg as (v & Hv & Hmin & Hfirst).
  apply lookup_abs_diff in Hv as (synt_i & Hsi & ->).
  assert (Hzero : Qabs (synt_j - a_time a) == 0).
  { apply (Qabs_case (synt_j - a_time a)); intros; lra. }
  assert (Hj' : abs_diff (map snd wave_map) (a_time a) !! j
                = Some (Qabs (synt_j - a_time a))).
  { apply lookup_abs_diff. exists synt_j. split; [|reflexivity].
    rewrite lookup_map, Hj. reflexivity. }
  pose proof (Hmin _ _ Hj') as Hle.
  pose proof (Qabs_nonneg (synt_i - a_time a)) as Hnn.
  assert (Hsi0 : Qabs (synt_i - a_time a) == 0) by lra.
  assert (Hrow : wave_map !! i = Some (real_i, synt_i)).
  { rewrite lookup_map in Hri, Hsi.
    destruct (wave_map !! i) as [[r s]|]; [|discriminate].
    simpl in Hri, Hsi. congruence. }
  destruct (lookup_lt_is_Some_2 (ras ++ [RealAnchor last_time None None]) (S k))
    as [nxt Hnxt].
  { apply lookup_lt_Some in Hra. rewrite length_app. simpl. lia. }
  exists i, real_i, synt_i,
    (Interval real_i (ra_time nxt) (Some (a_id a)) (Some (a_text a))).
  split; [|split; [exact Hrow|split; [|split; [|split]]]].
  - destruct (le_lt_dec i j) as [|Hlt]; [assumption|].
    pose proof (Hfirst _ _ Hlt Hj'). lra.
  - revert Hsi0. apply (Qabs_case (synt_i - a_time a)); intros; lra.
  - intros i' [r s] Hlt Hi' Hs. simpl in Hs.
    assert (Hi'' : abs_diff (map snd wave_map) (a_time a) !! i'
                   = Some (Qabs (s - a_time a))).
    { apply lookup_abs_diff. exists s. split; [|reflexivity].
      rewrite lookup_map, Hi'. reflexivity. }
    pose proof (Hfirst _ _ Hlt Hi'') as Hgt.
    assert (Qabs (s - a_time a) == 0)
      by (apply (Qabs_case (s - a_time a)); intros; lra).
    lra.
  - apply (lookup_intervals_of _ k
             (RealAnchor real_i (Some (a_id a)) (Some (a_text a))) nxt);
      [|exact Hnxt].
    apply lookup_app_l_Some, Hra.
  - reflexivity.
Qed.

Lemma align_text_exact_hit_witness :
  _align_text [(0, 0); (5, 1); (7, 1); (9, 2)] [Anchor 1 "f1" "a"]
  = Some [Interval 5 9 (Some "f1") (Some "a")]
  /\ [Anchor 1 "f1" "a"] !! 0%nat = Some (Anchor 1 "f1" "a")
  /\ [(0, 0); (5, 1); (7, 1); (9, 2)] !! 2%nat = Some (7, 1)
  /\ 1 == a_time (Anchor 1 "f1" "a")
  /\ exists i real_i synt_i iv,
       (i <= 2)%nat
       /\ [(0, 0); (5, 1); (7, 1); (9, 2)] !! i = Some (real_i, synt_i)
       /\ synt_i == 1
       /\ (forall i' row, (i' < i)%nat ->
             [(0, 0); (5, 1); (7, 1); (9, 2)] !! i' = Some row -> ~ row.2 == 1)
       /\ [Interval 5 9 (Some "f1") (Some "a")] !! 0%nat = Some iv
       /\ i_start iv = real_i.
Proof.
  assert (H : _align_text [(0, 0); (5, 1); (7, 1); (9, 2)] [Anchor 1 "f1" "a"]
              = Some [Interval 5 9 (Some "f1") (Some "a")])
    by (vm_compute; reflexivity).
  split; [exact H|]. split; [reflexivity|]. split; [reflexivity|].
  split; [reflexivity|].
  exact (align_text_exact_hit _ _ _ 0%nat 2%nat (Anchor 1 "f1" "a") 7 1
           H eq_refl eq_refl (Qeq_refl 1)).
Defined.

(** * Further properties of [_cut_head_tail] *)

(** X4: [_cut_head_tail] changes nothing of the executor but the head length
    and the process length of the configuration, and it sets them only when
    no explicit value is configured, a detect parameter is set, the audio
    loads and both detections return.  With nothing configured it returns
    [True] at once; with an explicit value it returns whether loading and
    trimming succeed and leaves the executor as it was. *)
Theorem cut_head_tail_cases (ext : Externals) (self : ExecuteTask)
    (audio_file_path : option string) :
  (explicit (configuration (task self)) = false ->
   detect (configuration (task self)) = false ->
   _cut_head_tail ext self audio_file_path = (true, self))
  /\ (explicit (configuration (task self)) = true ->
      _cut_head_tail ext self audio_file_path
      = (match ext_load_data ext audio_file_path with
         | Some _ => ext_trim_write ext
                       (is_audio_file_head_length (configuration (task self)))
                       (is_audio_file_process_length (configuration (task self)))
         | None => false
         end, self))
  /\ (configuration (task (_cut_head_tail ext self audio_file_path).2)
      = configuration (task self)
      \/ (explicit (configuration (task self)) = false
          /\ detect (configuration (task self)) = true
          /\ exists audio_length_ head tail,
               ext_load_data ext audio_file_path = Some audio_length_
               /\ detected_head ext (configuration (task self)) = Some head
               /\ detected_tail ext (configuration (task self)) = Some tail
               /\ configuration (task (_cut_head_tail ext self audio_file_path).2)
                  = set_head_process (configuration (task self))
                      (Qmax 0 head) (Qmax 0 (audio_length_ - tail - head))))
  /\ cleanup_info (_cut_head_tail ext self audio_file_path).2 = cleanup_info self
  /\ audio_file (task (_cut_head_tail ext self audio_file_path).2)
     = audio_file (task self)
  /\ text_file (task (_cut_head_tail ext self audio_file_path).2)
     = text_file (task self)
  /\ sync_map (task (_cut_head_tail ext self audio_file_path).2)
     = sync_map (task self).
Proof.
  split; [|split; [|split]].
  - intros He Hd. unfold _cut_head_tail. rewrite He, Hd. reflexivity.
  - intros He. unfold _cut_head_tail, trim_and_write. rewrite He. simpl.
    destruct (ext_load_data ext audio_file_path); [|reflexivity].
    destruct (ext_trim_write ext _ _); reflexivity.
  - unfold _cut_head_tail, trim_and_write.
    destruct (explicit (configuration (task self))) eqn:He; simpl.
    { left. destruct (ext_load_data ext audio_file_path); [|reflexivity].
      destruct (ext_trim_write ext _ _); reflexivity. }
    destruct (detect (configuration (task self))) eqn:Hd; [|left; reflexivity].
    destruct (ext_load_data ext audio_file_path) as [L|]; [|left; reflexivity].
    destruct (detected_head ext (configuration (task self))) as [head|];
      [|left; reflexivity].
    destruct (detected_tail ext (configuration (task self))) as [tail|];
      [|left; reflexivity].
    right. split; [reflexivity|]. split; [reflexivity|].
    exists L, head, tail. repeat split.
    destruct (ext_trim_write ext _ _); reflexivity.
  - destruct (cut_head_tail_frame ext self audio_file_path) as (H1 & H2 & _ & H4 & H5).
    repeat split; assumption.
Qed.

Lemma cut_head_tail_cases_witness :
  explicit (configuration (task (example_self (example_configuration None)))) = false
  /\ detect (configuration (task (example_self (example_configuration None)))) = false
  /\ _cut_head_tail (example_externals []) (example_self (example_configuration None))
       (Some "/tmp/real.wav"%string)
     = (true, example_self (example_configuration None)).
Proof.
  split; [reflexivity|]. split; [reflexivity|].
  apply (proj1 (cut_head_tail_cases (example_externals [])
                  (example_self (example_configuration None))
                  (Some "/tmp/real.wav"%string))); reflexivity.
Defined.



(** * Further properties of [_cleanup] *)

(** X6: [_cleanup] touches no handler and no file that is not in the
    registry, leaves the task as it is, and a second [_cleanup] right after
    the first does nothing. *)
Theorem cleanup_frame_idempotent (self : ExecuteTask) (w : World) :
  _cleanup (_cleanup self w).1 (_cleanup self w).2 = _cleanup self w
  /\ task (_cleanup self w).1 = task self
  /\ (forall h, h ∉ recorded_handlers (cleanup_info self) ->
        h ∈ open_handlers (_cleanup self w).2 <-> h ∈ open_handlers w)
  /\ (forall p, p ∉ recorded_paths (cleanup_info self) ->
        p ∈ files (_cleanup self w).2 <-> p ∈ files w)
  /\ vad_runs (_cleanup self w).2 = vad_runs w.
Proof.
  split; [reflexivity|]. split; [reflexivity|].
  destruct (cleanup_spec self w) as (_ & _ & Eh & Ef).
  destruct (foldl_cleanup_step (cleanup_info self) w) as (_ & _ & Ev).
  rewrite Eh, Ef. split; [|split].
  - intros h Hh. set_solver.
  - intros p Hp. set_solver.
  - exact Ev.
Qed.

(** * Further properties of [_create_syncmap] *)

(** The loop over the fragments keeps them, in their order. *)
Lemma fragment_rows_fragments (m : list interval) (frags : list TextFragment)
    (rows : list SyncMapFragment) :
  fragment_rows m frags = Some rows -> fragments_of rows = frags.
Proof.
  intros H. destruct (fragment_rows_inv _ _ _ H) as [Hlen Hinv].
  apply list_eq. intros k. unfold fragments_of. rewrite lookup_map.
  destruct (rows !! k) as [e|] eqn:He; simpl.
  - destruct (Hinv k e He) as (f & row & Hf & _ & ->). simpl. symmetry. exact Hf.
  - symmetry. apply lookup_ge_None. apply lookup_ge_None in He. lia.
Qed.

Lemma stretch_length (m m' : list interval) :
  stretch m = Some m' -> length m' = length m.
Proof.
  unfold stretch. intros H.
  destruct (m !! 0%nat); [|discriminate]. simpl in H.
  destruct (m !! 1%nat); [|discriminate]. simpl in H.
  destruct (last _); [|discriminate]. simpl in H.
  destruct (_ !! _); [|discriminate]. simpl in H.
  injection H as <-. rewrite !length_insert. reflexivity.
Qed.

(** X7: whatever the head/tail format, the sync map built by
    [_create_syncmap] carries the text fragments of the text file, all of
    them and in their order; with ADD they are preceded by a fragment HEAD
    and followed by a fragment TAIL, which have the language of the first
    text fragment (English when there is none) and one empty line. *)
Theorem create_syncmap_fragments_in_order (self : ExecuteTask)
    (adjusted_map : list interval) (tf : TextFile) :
  text_file (task self) = Some tf ->
  length adjusted_map = (length (fragments tf) + 2)%nat ->
  exists sync_map_,
    _create_syncmap self adjusted_map
    = (Returns true, set_task self (set_sync_map (task self) sync_map_))
    /\ fragments_of sync_map_
       = match os_file_head_tail_format (configuration (task self)) with
         | Some ADD =>
             let language_ := match fragments tf with
                              | f :: _ => language f
                              | [] => Language_EN
                              end in
             [head_tail_fragment "HEAD" language_] ++ fragments tf
             ++ [head_tail_fragment "TAIL" language_]
         | _ => fragments tf
         end.
Proof.
  intros Htf Hlen. unfold _create_syncmap. rewrite Htf.
  destruct (decide (length adjusted_map ≠ (length (fragments tf) + 2)%nat));
    [contradiction|].
  destruct (build_sync_map_length (configuration (task self)) (fragments tf)
              adjusted_map Hlen) as (sm & Hb & _).
  rewrite Hb. exists sm. split; [reflexivity|].
  revert Hb. unfold build_sync_map.
  destruct (adjusted_map !! 0%nat) as [head|]; [|discriminate]. simpl.
  destruct (last adjusted_map) as [tail|]; [|discriminate]. simpl.
  destruct (os_file_head_tail_format (configuration (task self))) as [[]|] eqn:Hfmt.
  - destruct (decide (Some ADD = Some STRETCH)) as [|_]; [discriminate|].
    destruct (decide (Some ADD = Some ADD)) as [_|]; [|congruence]. simpl.
    destruct (fragment_rows adjusted_map (fragments tf)) as [rows|] eqn:Hrows;
      [|discriminate]. simpl.
    intros [= <-]. unfold fragments_of. simpl. rewrite map_app. simpl.
    f_equal. f_equal. apply (fragment_rows_fragments _ _ _ Hrows).
  - destruct (decide (Some HIDDEN = Some STRETCH)) as [|_]; [discriminate|].
    destruct (decide (Some HIDDEN = Some ADD)) as [|_]; [discriminate|]. simpl.
    destruct (fragment_rows adjusted_map (fragments tf)) as [rows|] eqn:Hrows;
      [|discriminate]. simpl.
    intros [= <-]. apply (fragment_rows_fragments _ _ _ Hrows).
  - destruct (decide (Some STRETCH = Some ADD)) as [|_]; [discriminate|].
    destruct (decide (Some STRETCH = Some STRETCH)) as [_|]; [|congruence].
    destruct (stretch adjusted_map) as [m'|]; [|discriminate]. simpl.
    destruct (fragment_rows m' (fragments tf)) as [rows|] eqn:Hrows;
      [|discriminate]. simpl.
    intros [= <-]. apply (fragment_rows_fragments _ _ _ Hrows).
  - destruct (decide (None = Some STRETCH)) as [|_]; [discriminate|].
    destruct (decide (None = Some ADD)) as [|_]; [discriminate|]. simpl.
    destruct (fragment_rows adjusted_map (fragments tf)) as [rows|] eqn:Hrows;
      [|discriminate]. simpl.
    intros [= <-]. apply (fragment_rows_fragments _ _ _ Hrows).
Qed.

Lemma create_syncmap_fragments_in_order_witness :
  text_file (task (example_self (example_configuration (Some ADD))))
  = Some {| fragments := [ {| identifier := "f1"; language := "en";
                              lines := ["a"%string] |} ] |}
  /\ length example_adjusted_map = 3%nat
  /\ exists sync_map_,
       _create_syncmap (example_self (example_configuration (Some ADD)))
         example_adjusted_map
       = (Returns true,
          set_task (example_self (example_configuration (Some ADD)))
            (set_sync_map (task (example_self (example_configuration (Some ADD))))
               sync_map_))
       /\ fragments_of sync_map_
          = [head_tail_fragment "HEAD" "en";
             {| identifier := "f1"; language := "en"; lines := ["a"%string] |};
             head_tail_fragment "TAIL" "en"].
Proof.
  split; [reflexivity|]. split; [reflexivity|].
  exact (create_syncmap_fragments_in_order
           (example_self (example_configuration (Some ADD)))
           example_adjusted_map _ eq_refl eq_refl).
Defined.

(** X8: STEP 6 followed by STEP 8, with the format HIDDEN or none: from a
    text map with one interval per text fragment, [_translate_text_map] and
    then [_create_syncmap] give a sync map whose entry [k] is text fragment
    [k] with the start and the end of interval [k], both moved by the head
    length. *)
Theorem translate_then_create_syncmap (self : ExecuteTask) (text_map : list interval)
    (real_full_wave_length : Q) (tf : TextFile) :
  text_file (task self) = Some tf ->
  os_file_head_tail_format (configuration (task self)) <> Some ADD ->
  os_file_head_tail_format (configuration (task self)) <> Some STRETCH ->
  text_map <> [] ->
  length text_map = length (fragments tf) ->
  exists translated sync_map_,
    _translate_text_map self text_map real_full_wave_length = Some translated
    /\ _create_syncmap self translated
       = (Returns true, set_task self (set_sync_map (task self) sync_map_))
    /\ length sync_map_ = length (fragments tf)
    /\ forall k f iv, fragments tf !! k = Some f -> text_map !! k = Some iv ->
         sync_map_ !! k
         = Some {| text_fragment := f;
                   sm_begin := i_start iv
                               + safe_float (is_audio_file_head_length
                                               (configuration (task self))) 0;
                   sm_end := i_end iv
                             + safe_float (is_audio_file_head_length
                                             (configuration (task self))) 0 |}.
Proof.
  intros Htf Ha Hs Hne Hlen.
  destruct (last text_map) as [last_iv|] eqn:Hlast;
    [|apply last_None in Hlast; contradiction].
  rewrite (translate_text_map_nonempty self text_map real_full_wave_length last_iv Hlast).
  set (head := safe_float (is_audio_file_head_length (configuration (task self))) 0).
  remember (Interval 0 head None None
            :: map (shift head) text_map
            ++ [Interval (i_end last_iv + head) real_full_wave_length None None])
    as translated eqn:Etr.
  assert (Hlt : length translated = (length (fragments tf) + 2)%nat).
  { rewrite Etr. simpl. rewrite length_app, length_map. simpl. lia. }
  destruct (fragment_rows_spec translated (fragments tf)) as (rows & Hrows & Hlr & Hrk);
    [lia|].
  exists translated, rows. split; [reflexivity|]. split.
  { unfold _create_syncmap. rewrite Htf.
    destruct (decide (length translated ≠ (length (fragments tf) + 2)%nat));
      [contradiction|].
    unfold build_sync_map.
    destruct (translated !! 0%nat) as [h|] eqn:Hh.
    2:{ rewrite Etr in Hh. discriminate Hh. }
    destruct (last translated) as [t|] eqn:Ht.
    2:{ apply last_None in Ht. rewrite Etr in Ht. discriminate Ht. }
    simpl.
    destruct (decide (os_file_head_tail_format (configuration (task self))
                      = Some STRETCH)); [contradiction|].
    destruct (decide (os_file_head_tail_format (configuration (task self))
                      = Some ADD)); [contradiction|].
    simpl. rewrite Hrows. reflexivity. }
  split; [exact Hlr|].
  intros k f iv Hf Hiv.
  rewrite (Hrk k f (shift head iv) Hf); [reflexivity|].
  rewrite Etr. simpl.
  apply lookup_app_l_Some. rewrite lookup_map, Hiv. reflexivity.
Qed.

Lemma translate_then_create_syncmap_witness :
  text_file (task (example_self (example_configuration None)))
  = Some {| fragments := [ {| identifier := "f1"; language := "en";
                              lines := ["a"%string] |} ] |}
  /\ [Interval 1 2 (Some "f1") (Some "a")] <> []
  /\ exists translated sync_map_,
       _translate_text_map (example_self (example_configuration None))
         [Interval 1 2 (Some "f1") (Some "a")] 3 = Some translated
       /\ _create_syncmap (example_self (example_configuration None)) translated
          = (Returns true,
             set_task (example_self (example_configuration None))
               (set_sync_map (task (example_self (example_configuration None)))
                  sync_map_))
       /\ length sync_map_ = 1%nat
       /\ sync_map_ !! 0%nat
          = Some {| text_fragment := {| identifier := "f1"; language := "en";
                                        lines := ["a"%string] |};
                    sm_begin := 1 + 0; sm_end := 2 + 0 |}.
Proof.
  split; [reflexivity|]. split; [discriminate|].
  destruct (translate_then_create_syncmap (example_self (example_configuration None))
              [Interval 1 2 (Some "f1") (Some "a")] 3 _ eq_refl)
    as (translated & sync_map_ & H1 & H2 & H3 & H4);
    [discriminate | discriminate | discriminate | reflexivity |].
  exists translated, sync_map_.
  split; [exact H1|]. split; [exact H2|]. split; [exact H3|].
  exact (H4 0%nat _ _ eq_refl eq_refl).
Defined.

(** * Further properties of [execute] *)

Lemma same_but_head_process_refl (c : TaskConfiguration) : same_but_head_process c c.
Proof. unfold same_but_head_process. repeat split; reflexivity. Qed.

(** [_cut_head_tail] changes the head length and the process length of the
    configuration at most. *)
Lemma cut_head_tail_same_but (ext : Externals) (self : ExecuteTask)
    (audio_file_path : option string) :
  same_but_head_process (configuration (task self))
    (configuration (task (_cut_head_tail ext self audio_file_path).2)).
Proof.
  unfold _cut_head_tail, trim_and_write.
  repeat match goal with
         | |- context [if ?b then _ else _] => destruct b
         | |- context [match ?o with Some _ => _ | None => _ end] => destruct o
         end; simpl; unfold same_but_head_process; simpl; repeat split; reflexivity.
Qed.

(** The rows registered by [_convert] and [_synthesize]. *)
Lemma convert_row (ext : Externals) (self : ExecuteTask) (w : World) :
  ((_convert ext self w).1.1.2, (_convert ext self w).1.2)
  = mkstemp_row (ext_mkstemp_real ext).
Proof.
  unfold _convert, mkstemp_row.
  destruct (ext_mkstemp_real ext) as [[h p]|]; [|reflexivity].
  destruct (ext_ffmpeg_convert ext _ p); reflexivity.
Qed.

Lemma synthesize_row (ext : Externals) (self : ExecuteTask) (w : World) :
  ((_synthesize ext self w).1.1.1.2, (_synthesize ext self w).1.1.2)
  = mkstemp_row (ext_mkstemp_synt ext).
Proof.
  unfold _synthesize, mkstemp_row.
  destruct (ext_mkstemp_synt ext) as [[h p]|]; [|reflexivity].
  destruct (ext_synthesize ext _ p); reflexivity.
Qed.

(** [_convert] and [_synthesize] do not run the voice activity detector. *)
Lemma convert_vad (ext : Externals) (self : ExecuteTask) (w : World) :
  vad_runs (_convert ext self w).2 = vad_runs w.
Proof.
  unfold _convert. destruct (ext_mkstemp_real ext) as [[h p]|]; [|reflexivity].
  destruct (ext_ffmpeg_convert ext _ p); reflexivity.
Qed.

Lemma synthesize_vad (ext : Externals) (self : ExecuteTask) (w : World) :
  vad_runs (_synthesize ext self w).2 = vad_runs w.
Proof.
  unfold _synthesize. destruct (ext_mkstemp_synt ext) as [[h p]|]; [|reflexivity].
  destruct (ext_synthesize ext _ p); reflexivity.
Qed.

(** How often [_adjust_boundaries] runs the voice activity detector. *)
Lemma adjust_boundaries_vad (ext : Externals) (self : ExecuteTask)
    (text_map : list interval) (mf : mfcc) (L : Q) (w : World) :
  (no_adjuster (configuration (task self)) ->
   vad_runs (_adjust_boundaries ext self text_map mf L w).2 = vad_runs w)
  /\ (forall algo, adjust_boundary_algorithm (configuration (task self)) = Some algo ->
        algo <> AUTO ->
        vad_runs (_adjust_boundaries ext self text_map mf L w).2 = S (vad_runs w)).
Proof.
  split.
  - intros H. rewrite (adjust_boundaries_noop ext self text_map mf L w H). reflexivity.
  - intros algo H Hne. apply (adjust_boundaries_runs_vad _ _ _ _ _ _ algo); assumption.
Qed.

(** What STEP 4 to STEP 9 do to the world and to the task. *)
Lemma execute_from_step4_effects (ext : Externals) (self : ExecuteTask) (w : World)
    (real_trimmed_path synt_path : option string) (synt_anchors : option (list anchor))
    (mf : mfcc) (L : Q) :
  is_Some (text_file (task self)) ->
  exists w7,
    (execute_from_step4 ext self w real_trimmed_path synt_path synt_anchors mf L).2
    = foldl cleanup_step w7 (cleanup_info self)
    /\ open_handlers w7 = open_handlers w
    /\ files w7 = files w
    /\ (vad_runs w <= vad_runs w7 <= S (vad_runs w))%nat
    /\ (no_adjuster (configuration (task self)) -> vad_runs w7 = vad_runs w)
    /\ (forall algo,
          (execute_from_step4 ext self w real_trimmed_path synt_path synt_anchors
             mf L).1.1 = Returns true ->
          adjust_boundary_algorithm (configuration (task self)) = Some algo ->
          algo <> AUTO -> vad_runs w7 = S (vad_runs w))
    /\ audio_file (task (execute_from_step4 ext self w real_trimmed_path synt_path
                           synt_anchors mf L).1.2) = audio_file (task self)
    /\ audio_file_path_absolute
         (task (execute_from_step4 ext self w real_trimmed_path synt_path
                  synt_anchors mf L).1.2) = audio_file_path_absolute (task self)
    /\ text_file (task (execute_from_step4 ext self w real_trimmed_path synt_path
                          synt_anchors mf L).1.2) = text_file (task self)
    /\ configuration (task (execute_from_step4 ext self w real_trimmed_path synt_path
                              synt_anchors mf L).1.2) = configuration (task self).
Proof.
  intros [tf Htf]. unfold execute_from_step4.
  assert (Hearly : exists w7,
             (stage_failure self w).2 = foldl cleanup_step w7 (cleanup_info self)
             /\ open_handlers w7 = open_handlers w
             /\ files w7 = files w
             /\ (vad_runs w <= vad_runs w7 <= S (vad_runs w))%nat
             /\ (no_adjuster (configuration (task self)) -> vad_runs w7 = vad_runs w)
             /\ (forall algo, (stage_failure self w).1.1 = Returns true ->
                   adjust_boundary_algorithm (configuration (task self)) = Some algo ->
                   algo <> AUTO -> vad_runs w7 = S (vad_runs w))
             /\ audio_file (task (stage_failure self w).1.2) = audio_file (task self)
             /\ audio_file_path_absolute (task (stage_failure self w).1.2)
                = audio_file_path_absolute (task self)
             /\ text_file (task (stage_failure self w).1.2) = text_file (task self)
             /\ configuration (task (stage_failure self w).1.2)
                = configuration (task self)).
  { exists w. rewrite stage_failure_eq. simpl.
    repeat split; try reflexivity; try lia. intros; discriminate. }
  destruct (_align_waves ext real_trimmed_path synt_path) as [wave_map|];
    [|exact Hearly].
  destruct (synt_anchors ≫= _align_text wave_map) as [text_map|]; [|exact Hearly].
  destruct (_translate_text_map self text_map L) as [translated|]; [|exact Hearly].
  clear Hearly.
  pose proof (adjust_boundaries_world ext self translated mf L w) as [Hh7 Hf7].
  pose proof (adjust_boundaries_vad ext self translated mf L w) as [Hv0 Hv1].
  assert (Hvb : (vad_runs w
                 <= vad_runs (_adjust_boundaries ext self translated mf L w).2
                 <= S (vad_runs w))%nat).
  { destruct (adjust_boundary_algorithm (configuration (task self))) as [algo|] eqn:Ea.
    - destruct (decide (algo = AUTO)) as [->|Hne].
      + rewrite Hv0 by (right; exact Ea). lia.
      + rewrite (Hv1 algo eq_refl Hne). lia.
    - rewrite Hv0 by (left; exact Ea). lia. }
  destruct (_adjust_boundaries ext self translated mf L w) as [[adjusted|] w7];
    simpl in Hh7, Hf7, Hv0, Hv1, Hvb.
  2:{ exists w7. rewrite stage_failure_eq. simpl.
      repeat split; try reflexivity; try assumption; try lia. intros; discriminate. }
  unfold _create_syncmap. rewrite Htf.
  destruct (decide (length adjusted ≠ (length (fragments tf) + 2)%nat)).
  { exists w7. rewrite stage_failure_eq. simpl.
    repeat split; try reflexivity; try assumption; try lia. intros; discriminate. }
  destruct (build_sync_map (configuration (task self)) (fragments tf) adjusted)
    as [sm|].
  2:{ exists w7. rewrite stage_failure_eq. simpl.
      repeat split; try reflexivity; try assumption; try lia. intros; discriminate. }
  exists w7. simpl.
  repeat split; try reflexivity; try assumption; try lia.
  intros algo _ Ha Hne. exact (Hv1 algo Ha Hne).
Qed.

(** What STEP 0 to STEP 9 do to the world and to the task. *)
Lemma execute_from_step0_effects (ext : Externals) (self : ExecuteTask) (w : World) :
  is_Some (text_file (task self)) -> cleanup_info self = [] ->
  step0_effects ext self w (execute_from_step0 ext self w).
Proof.
  intros Htf Hreg. unfold execute_from_step0.
  pose proof (convert_world ext self w) as [Hh0 Hf0].
  pose proof (convert_row ext self w) as Hrow0.
  pose proof (convert_vad ext self w) as Hv0.
  destruct (_convert ext self w) as [[[result0 h0] p0] w0]. simpl in *.
  set (self0 := register self h0 p0) in *.
  assert (Hinfo0 : cleanup_info self0 = [(h0, p0)]).
  { unfold self0, register. simpl. rewrite Hreg. reflexivity. }
  assert (Hfail0 : forall selfX : ExecuteTask,
             cleanup_info selfX = [(h0, p0)] ->
             audio_file (task selfX) = audio_file (task self) ->
             audio_file_path_absolute (task selfX) = audio_file_path_absolute (task self) ->
             text_file (task selfX) = text_file (task self) ->
             same_but_head_process (configuration (task self))
               (configuration (task selfX)) ->
             step0_effects ext self w (stage_failure selfX w0)).
  { intros selfX HX Ha Hp Ht Hc.
    rewrite stage_failure_eq. exists (cleanup_info selfX), w0.
    split; [reflexivity|]. split.
    { rewrite HX. intros e He. apply list_elem_of_singleton in He as ->.
      left. exact Hrow0. }
    simpl.
    split; [rewrite Hh0; set_solver|]. split; [rewrite Hf0; set_solver|].
    split; [lia|]. split; [intros _; exact Hv0|].
    split; [intros; discriminate|].
    split; [exact Ha|]. split; [exact Hp|]. split; [exact Ht | exact Hc]. }
  destruct result0; simpl.
  2:{ apply Hfail0; try reflexivity; [exact Hinfo0 | apply same_but_head_process_refl]. }
  destruct (_extract_mfcc ext p0) as [[mf L]|]; simpl.
  2:{ apply Hfail0; try reflexivity; [exact Hinfo0 | apply same_but_head_process_refl]. }
  pose proof (cut_head_tail_frame ext self0 p0) as (Hci2 & Haf2 & Hap2 & Htf2 & _).
  pose proof (cut_head_tail_same_but ext self0 p0) as Hsame2.
  destruct (_cut_head_tail ext self0 p0) as [result2 self2]. simpl in *.
  rewrite Hinfo0 in Hci2.
  destruct result2; simpl.
  2:{ apply Hfail0; assumption. }
  pose proof (synthesize_world ext self2 w0) as [Hh3 Hf3].
  pose proof (synthesize_row ext self2 w0) as Hrow3.
  pose proof (synthesize_vad ext self2 w0) as Hv3.
  destruct (_synthesize ext self2 w0) as [[[[result3 hs] ps] sa] w3]. simpl in *.
  set (self3 := register self2 hs ps) in *.
  assert (Hinfo3 : cleanup_info self3 = [(h0, p0); (hs, ps)]).
  { unfold self3, register. simpl. rewrite Hci2. reflexivity. }
  assert (Hrows : forall e, e ∈ [(h0, p0); (hs, ps)] ->
                    e = mkstemp_row (ext_mkstemp_real ext)
                    \/ e = mkstemp_row (ext_mkstemp_synt ext)).
  { intros e He. apply elem_of_cons in He as [-> | He]; [left; exact Hrow0|].
    apply list_elem_of_singleton in He as ->. right. exact Hrow3. }
  destruct result3; simpl.
  2:{ rewrite stage_failure_eq. exists (cleanup_info self3), w3.
      split; [reflexivity|]. split; [rewrite Hinfo3; exact Hrows|]. simpl.
      split; [rewrite Hh3, Hh0; set_solver|]. split; [rewrite Hf3, Hf0; set_solver|].
      split; [lia|]. split; [intros _; congruence|].
      split; [intros; discriminate|].
      split; [exact Haf2|]. split; [exact Hap2|]. split; [exact Htf2 | exact Hsame2]. }
  destruct (execute_from_step4_effects ext self3 w3 p0 ps sa mf L)
    as (w7 & Hw & E1 & E2 & Hvb & Hvn & Hvs & Ha' & Hp' & Ht' & Hc').
  { unfold self3, register. simpl. rewrite Htf2. exact Htf. }
  destruct Hsame2 as (S1 & S2 & S3 & S4 & S5 & S6).
  exists (cleanup_info self3), w7.
  split; [exact Hw|]. split; [rewrite Hinfo3; exact Hrows|].
  split; [rewrite E1, Hh3, Hh0; set_solver|].
  split; [rewrite E2, Hf3, Hf0; set_solver|].
  split; [lia|]. split.
  { intros Hno. rewrite Hvn; [congruence|].
    unfold no_adjuster in *. simpl. rewrite S5. exact Hno. }
  split.
  { intros algo Hr Halgo Hne. rewrite (Hvs algo Hr); [congruence| |exact Hne].
    simpl. rewrite S5. exact Halgo. }
  rewrite Ha', Hp', Ht', Hc'. simpl.
  split; [exact Haf2|]. split; [exact Hap2|]. split; [exact Htf2|].
  unfold same_but_head_process. repeat split; tauto.
Qed.

(** The tests of [execute] on the task. *)
Lemma rejected_not_reached (t : Task) : rejected t -> reaches_step0 t = false.
Proof.
  unfold rejected, reaches_step0.
  intros [H | [(a & Ha & Hl) | [H | (tf & Htf & Hf)]]].
  - rewrite H. reflexivity.
  - rewrite Ha. destruct (text_file t); [|reflexivity].
    assert (invalid_audio_length a = true) as ->; [|reflexivity].
    unfold invalid_audio_length.
    destruct Hl as [-> | (l & -> & Hle)]; [reflexivity|].
    apply Qle_bool_iff, Hle.
  - rewrite H. destruct (audio_file t); reflexivity.
  - rewrite Htf, Hf. destruct (audio_file t); [|reflexivity].
    simpl. apply andb_false_r.
Qed.

(** X9: a task without audio file, with an audio length that is unknown or
    not positive, without text file or without text fragment makes [execute]
    return [False] at once: the executor, its registry included, and the
    world are left as they are, and no collaborator is called. *)
Theorem execute_rejects (ext : Externals) (self : ExecuteTask) (w : World) :
  rejected (task self) ->
  execute ext self w = (Returns false, self, w).
Proof.
  intros H. apply rejected_not_reached in H.
  destruct (execute_cases ext self w) as [[_ E] | [E _]]; [exact E | congruence].
Qed.

Lemma execute_rejects_witness :
  rejected example_task_without_audio
  /\ execute (example_externals [(0, 0); (2, 1)])
       {| task := example_task_without_audio;
          cleanup_info := [(Some 7%Z, Some "/tmp/old.wav"%string)] |}
       example_world
     = (Returns false,
        {| task := example_task_without_audio;
           cleanup_info := [(Some 7%Z, Some "/tmp/old.wav"%string)] |},
        example_world).
Proof.
  assert (H : rejected example_task_without_audio) by (left; reflexivity).
  split; [exact H|].
  exact (execute_rejects (example_externals [(0, 0); (2, 1)])
           {| task := example_task_without_audio;
              cleanup_info := [(Some 7%Z, Some "/tmp/old.wav"%string)] |}
           example_world H).
Defined.

(** Every run of [execute] has the effects of a run from STEP 0 on. *)
Lemma execute_effects (ext : Externals) (self : ExecuteTask) (w : World) :
  step0_effects ext self w (execute ext self w).
Proof.
  destruct (execute_cases ext self w) as [[_ ->] | [Hreach ->]].
  - exists [], w. simpl.
    split; [reflexivity|]. split; [intros e He; inversion He|].
    split; [reflexivity|]. split; [reflexivity|]. split; [lia|].
    split; [reflexivity|]. split; [intros; discriminate|].
    split; [reflexivity|]. split; [reflexivity|]. split; [reflexivity|].
    apply same_but_head_process_refl.
  - apply reaches_step0_inv in Hreach as (a & tf & _ & _ & Htf & _).
    apply (execute_from_step0_effects ext (set_cleanup_info self []) w).
    + simpl. rewrite Htf. eauto.
    + reflexivity.
Qed.

(** X10: [execute] closes no handler and removes no file but those of its own
    two temporary files; when [mkstemp] returns handlers that are not open
    and paths that do not exist, the open handlers and the files are, when
    [execute] returns, exactly those there were before. *)
Theorem execute_file_system (ext : Externals) (self : ExecuteTask) (w : World) :
  (forall q, q ∈ files w ->
     (forall h p, ext_mkstemp_real ext = Some (h, p) -> q <> p) ->
     (forall h p, ext_mkstemp_synt ext = Some (h, p) -> q <> p) ->
     q ∈ files (execute ext self w).2)
  /\ (forall k, k ∈ open_handlers w ->
        (forall h p, ext_mkstemp_real ext = Some (h, p) -> k <> h) ->
        (forall h p, ext_mkstemp_synt ext = Some (h, p) -> k <> h) ->
        k ∈ open_handlers (execute ext self w).2)
  /\ ((forall h p, ext_mkstemp_real ext = Some (h, p) ->
         (h ∉ open_handlers w) /\ (p ∉ files w)) ->
      (forall h p, ext_mkstemp_synt ext = Some (h, p) ->
         (h ∉ open_handlers w) /\ (p ∉ files w)) ->
      files (execute ext self w).2 = files w
      /\ open_handlers (execute ext self w).2 = open_handlers w).
Proof.
  destruct (execute_effects ext self w)
    as (info & wpre & Hw & Hrows & Hh & Hf & _).
  destruct (foldl_cleanup_step info wpre) as (Eh & Ef & _).
  assert (Hkept_files : forall q, q ∈ files w ->
            (forall h p, ext_mkstemp_real ext = Some (h, p) -> q <> p) ->
            (forall h p, ext_mkstemp_synt ext = Some (h, p) -> q <> p) ->
            q ∈ files (execute ext self w).2).
  { intros q Hq Hr Hs. rewrite Hw, Ef.
    apply elem_of_difference. split; [set_solver|].
    unfold recorded_paths. rewrite elem_of_list_to_set, list_elem_of_omap.
    intros ([oh op] & He & Hsnd). simpl in Hsnd. subst op.
    destruct (Hrows _ He) as [E | E]; unfold mkstemp_row in E.
    - destruct (ext_mkstemp_real ext) as [[h p]|] eqn:Em; [|discriminate].
      simpl in E. injection E as _ <-. exact (Hr h q eq_refl eq_refl).
    - destruct (ext_mkstemp_synt ext) as [[h p]|] eqn:Em; [|discriminate].
      simpl in E. injection E as _ <-. exact (Hs h q eq_refl eq_refl). }
  assert (Hkept_handlers : forall k, k ∈ open_handlers w ->
            (forall h p, ext_mkstemp_real ext = Some (h, p) -> k <> h) ->
            (forall h p, ext_mkstemp_synt ext = Some (h, p) -> k <> h) ->
            k ∈ open_handlers (execute ext self w).2).
  { intros k Hk Hr Hs. rewrite Hw, Eh.
    apply elem_of_difference. split; [set_solver|].
    unfold recorded_handlers. rewrite elem_of_list_to_set, list_elem_of_omap.
    intros ([oh op] & He & Hfst). simpl in Hfst. subst oh.
    destruct (Hrows _ He) as [E | E]; unfold mkstemp_row in E.
    - destruct (ext_mkstemp_real ext) as [[h p]|] eqn:Em; [|discriminate].
      simpl in E. injection E as <- _. exact (Hr k p eq_refl eq_refl).
    - destruct (ext_mkstemp_synt ext) as [[h p]|] eqn:Em; [|discriminate].
      simpl in E. injection E as <- _. exact (Hs k p eq_refl eq_refl). }
  split; [exact Hkept_files|]. split; [exact Hkept_handlers|].
  intros Hfresh_r Hfresh_s.
  assert (Hsub : open_handlers (execute ext self w).2 ⊆ open_handlers w
                 /\ files (execute ext self w).2 ⊆ files w).
  { destruct (execute_cases ext self w) as [[_ ->] | [Hreach ->]];
      [split; reflexivity|].
    apply reaches_step0_inv in Hreach as (a & tf & _ & _ & Htf & _).
    destruct (execute_from_step0_spec ext (set_cleanup_info self []) w)
      as (r & self' & w' & -> & _ & H1 & H2 & _).
    { simpl. rewrite Htf. eauto. }
    { reflexivity. }
    split; assumption. }
  destruct Hsub as [Hsh Hsf].
  split; apply set_eq; intros x; split; intros Hx.
  - apply Hsf, Hx.
  - apply Hkept_files; [exact Hx | |]; intros h p Hm ->.
    + destruct (Hfresh_r h p Hm) as [_ Hn]. contradiction.
    + destruct (Hfresh_s h p Hm) as [_ Hn]. contradiction.
  - apply Hsh, Hx.
  - apply Hkept_handlers; [exact Hx | |]; intros h p Hm ->.
    + destruct (Hfresh_r h p Hm) as [Hn _]. contradiction.
    + destruct (Hfresh_s h p Hm) as [Hn _]. contradiction.
Qed.

Lemma execute_file_system_witness :
  files (execute (example_externals [(0, 0); (2, 1)])
           (example_self (example_configuration (Some ADD))) example_world).2
  = files example_world
  /\ open_handlers (execute (example_externals [(0, 0); (2, 1)])
                      (example_self (example_configuration (Some ADD)))
                      example_world).2
     = open_handlers example_world.
Proof.
  apply (proj2 (proj2 (execute_file_system (example_externals [(0, 0); (2, 1)])
                         (example_self (example_configuration (Some ADD)))
                         example_world)));
    intros h p _; split; apply not_elem_of_empty.
Defined.



(** X12: [execute] never changes the audio file, its path or the text file
    of the task, and of the configuration it changes the head length and the
    process length at most. *)
Theorem execute_task_frame (ext : Externals) (self : ExecuteTask) (w : World) :
  audio_file (task (execute ext self w).1.2) = audio_file (task self)
  /\ audio_file_path_absolute (task (execute ext self w).1.2)
     = audio_file_path_absolute (task self)
  /\ text_file (task (execute ext self w).1.2) = text_file (task self)
  /\ same_but_head_process (configuration (task self))
       (configuration (task (execute ext self w).1.2)).
Proof.
  destruct (execute_effects ext self w)
    as (info & wpre & _ & _ & _ & _ & _ & _ & _ & Ha & Hp & Ht & Hc).
  split; [exact Ha|]. split; [exact Hp|]. split; [exact Ht | exact Hc].
Qed.

(** The interval list of [_align_text] has one interval per anchor. *)
Lemma align_text_length (wave_map : list (Q * Q)) (synt_anchors : list anchor)
    (text_map : list interval) :
  _align_text wave_map synt_anchors = Some text_map ->
  length text_map = length synt_anchors.
Proof.
  intros H.
  destruct (align_text_inv wave_map synt_anchors text_map H)
    as (real_anchors & last_time & HF & _ & ->).
  rewrite length_intervals_of, length_app. simpl.
  rewrite (Forall2_length _ _ _ HF). lia.
Qed.

(** The translated map has two rows more than the text map. *)
Lemma translate_text_map_length (self : ExecuteTask) (text_map translated : list interval)
    (real_full_wave_length : Q) :
  _translate_text_map self text_map real_full_wave_length = Some translated ->
  length translated = (length text_map + 2)%nat.
Proof.
  intros H.
  destruct (translate_text_map_inv _ _ _ _ H) as [last_iv Hl].
  rewrite (translate_text_map_nonempty _ _ _ _ Hl) in H. injection H as <-.
  simpl. rewrite length_app, length_map. simpl. lia.
Qed.

(** X13: when no boundary adjuster is called, [execute] returns [True] if
    and only if the task passes the tests on the audio file and on the text
    file, both temporary files are created, the converter, the MFCC
    extractor, [_cut_head_tail], the synthesizer and the aligner succeed,
    the wave map has at least one row and the synthesizer returned one
    anchor per text fragment. *)
Theorem execute_succeeds_iff (ext : Externals) (self : ExecuteTask) (w : World) :
  no_adjuster (configuration (task self)) ->
  ((execute ext self w).1.1 = Returns true <-> all_stages_succeed ext self).
Proof.
  intros Hno. split.
  - intros Hr.
    destruct (execute_cases ext self w) as [[_ He] | [Hreach He]].
    { rewrite He in Hr. discriminate. }
    apply reaches_step0_inv in Hreach as (a & tf & Ha & Hinv & Htf & Hfr).
    destruct (execute_from_step0_spec ext (set_cleanup_info self []) w)
      as (r & self' & w' & Heq & _ & _ & _ & _ & _ & Hsucc).
    { simpl. rewrite Htf. eauto. }
    { reflexivity. }
    rewrite He, Heq in Hr. simpl in Hr. injection Hr as ->.
    destruct Hsucc as (h0 & p0 & w0 & mf & L & self2 & hs & ps & sa & w3 & w7
                       & Hconv & Hmf & Hcut & Hsyn & Hrun).
    destruct Hrun as (wave_map & anchors & text_map & translated & adjusted & tf'
                      & sync_map_ & -> & Haw & Hat & Htr & Hadj & Htf' & Hlen & _ & _).
    pose proof (cut_head_tail_frame ext (register (set_cleanup_info self []) h0 p0) p0)
      as (_ & _ & _ & Hct & _).
    pose proof (cut_head_tail_same_but ext (register (set_cleanup_info self []) h0 p0) p0)
      as (_ & _ & _ & _ & Halg & _).
    rewrite Hcut in Hct, Halg. simpl in Hct, Halg, Htf'.
    rewrite Hct, Htf in Htf'. injection Htf' as <-.
    unfold _convert in Hconv. simpl in Hconv.
    destruct (ext_mkstemp_real ext) as [[h p]|] eqn:Hmk; [|discriminate].
    destruct (ext_ffmpeg_convert ext (audio_file_path_absolute (task self)) p) eqn:Hff;
      [|discriminate].
    injection Hconv as <- <- <-.
    unfold _synthesize in Hsyn.
    destruct (ext_mkstemp_synt ext) as [[hs' ps']|] eqn:Hms; [|discriminate].
    rewrite Hct, Htf in Hsyn.
    destruct (ext_synthesize ext (Some tf) ps') as [anchors'|] eqn:Hsy; [|discriminate].
    injection Hsyn as <- <- <- <-.
    rewrite adjust_boundaries_noop in Hadj.
    2:{ simpl. rewrite Halg. exact Hno. }
    injection Hadj as <- <-.
    apply translate_text_map_length in Htr.
    pose proof (align_text_length _ _ _ Hat) as Hal.
    exists a, tf, h, p, mf, L, hs', ps', anchors', wave_map.
    split; [exact Ha|]. split; [exact Hinv|]. split; [exact Htf|].
    split; [intros E; rewrite E in Hfr; contradiction Hfr; reflexivity|].
    split; [exact Hmk|]. split; [exact Hff|]. split; [exact Hmf|].
    split; [rewrite Hcut; reflexivity|].
    split; [exact Hms|]. split; [exact Hsy|]. split; [exact Haw|].
    split; [intros ->; destruct (align_text_inv _ _ _ Hat) as (? & ? & _ & Hl0 & _);
            discriminate Hl0|].
    lia.
  - intros (a & tf & h & p & mf & L & hs & ps & anchors & wave_map & Ha & Hinv & Htf
            & Hfr & Hmk & Hff & Hmf & Hcut & Hms & Hsy & Hcm & Hwm & Hlen).
    unfold execute. rewrite Ha, Hinv, Htf.
    destruct (decide (length (fragments tf) = 0%nat)) as [E|_].
    { destruct (fragments tf); [contradiction Hfr; reflexivity | discriminate E]. }
    unfold execute_from_step0, _convert. simpl. rewrite Hmk, Hff. simpl.
    unfold _extract_mfcc. rewrite Hmf.
    pose proof (cut_head_tail_frame ext
                  (register (set_cleanup_info self []) (Some h) (Some p)) (Some p))
      as (_ & _ & _ & Hct & _).
    pose proof (cut_head_tail_same_but ext
                  (register (set_cleanup_info self []) (Some h) (Some p)) (Some p))
      as (_ & _ & _ & _ & Halg & _).
    destruct (_cut_head_tail ext
                (register (set_cleanup_info self []) (Some h) (Some p)) (Some p))
      as [r2 self2] eqn:Hc.
    simpl in Hcut, Hct, Halg. subst r2. simpl.
    unfold _synthesize. rewrite Hms, Hct, Htf, Hsy. simpl.
    unfold execute_from_step4, _align_waves. rewrite Hcm. simpl.
    destruct (align_text_Some wave_map anchors Hwm) as (ras & lt & _ & _ & Hat).
    rewrite Hat.
    pose proof (align_text_length _ _ _ Hat) as Hal.
    remember (intervals_of (ras ++ [RealAnchor lt None None])) as text_map eqn:Etm.
    destruct (_translate_text_map (register self2 (Some hs) (Some ps)) text_map L)
      as [translated|] eqn:Htr.
    2:{ unfold _translate_text_map in Htr.
        destruct (decide (length text_map = 0%nat)) as [E|_]; [|discriminate].
        destruct (fragments tf); [contradiction Hfr; reflexivity|].
        simpl in Hlen. lia. }
    pose proof (translate_text_map_length _ _ _ _ Htr) as Hl.
    rewrite adjust_boundaries_noop.
    2:{ simpl. rewrite Halg. exact Hno. }
    unfold _create_syncmap. simpl. rewrite Hct, Htf.
    destruct (decide (length translated ≠ (length (fragments tf) + 2)%nat)) as [E|_].
    { contradiction E. lia. }
    destruct (build_sync_map_length (configuration (task self2)) (fragments tf) translated)
      as (sm & -> & _); [lia|].
    reflexivity.
Qed.

Lemma execute_succeeds_iff_witness :
  no_adjuster (configuration (task (example_self (example_configuration (Some ADD)))))
  /\ ((execute (example_externals [(0, 0); (2, 1)])
         (example_self (example_configuration (Some ADD))) example_world).1.1
      = Returns true
      <-> all_stages_succeed (example_externals [(0, 0); (2, 1)])
            (example_self (example_configuration (Some ADD)))).
Proof.
  assert (H : no_adjuster
                (configuration (task (example_self (example_configuration (Some ADD))))))
    by (left; reflexivity).
  split; [exact H|].
  apply (execute_succeeds_iff (example_externals [(0, 0); (2, 1)])
           (example_self (example_configuration (Some ADD))) example_world H).
Defined.
